(** * Blackjack with a tabular Q-learning agent

    A shallow embedding of [Blackjack.py]: the card and deck classes, the
    hand evaluator, the game operations of class [Blackjack], the epsilon
    greedy action selection, the temporal-difference update and the body of
    one round of the driver loop of [main].

    Python integers are [Z], Python floats are exact rationals [Q], Python
    lists are lists ([pop] and [append] work at the end), the dictionary
    [q_table] is a [gmap] from states to rows, and the module [random] is an
    interface with its state threaded through the calls. *)

From stdpp Require Import gmap list countable.
From Stdlib Require Import ZArith QArith Qpower String Permutation Lia.

Local Open Scope Z_scope.

(** ** Cards *)

Inductive Suit := Hearts | Diamonds | Clubs | Spades.

(** The thirteen strings of [values] in [Deck.__init__]. *)
Inductive Rank :=
  | R2 | R3 | R4 | R5 | R6 | R7 | R8 | R9 | R10
  | Jack | Queen | King | Ace.

Record Card := mkCard { suit : Suit; value : Rank }.

Definition rank_index (r : Rank) : nat :=
  match r with
  | R2 => 0 | R3 => 1 | R4 => 2 | R5 => 3 | R6 => 4 | R7 => 5 | R8 => 6
  | R9 => 7 | R10 => 8 | Jack => 9 | Queen => 10 | King => 11 | Ace => 12
  end%nat.

Definition rank_of_index (n : nat) : option Rank :=
  match n with
  | 0 => Some R2 | 1 => Some R3 | 2 => Some R4 | 3 => Some R5
  | 4 => Some R6 | 5 => Some R7 | 6 => Some R8 | 7 => Some R9
  | 8 => Some R10 | 9 => Some Jack | 10 => Some Queen | 11 => Some King
  | 12 => Some Ace | _ => None
  end%nat.

#[global] Instance Rank_eq_dec : EqDecision Rank.
Proof. solve_decision. Defined.

#[global] Instance Suit_eq_dec : EqDecision Suit.
Proof. solve_decision. Defined.

#[global] Instance Card_eq_dec : EqDecision Card.
Proof. solve_decision. Defined.

#[global] Instance Rank_countable : Countable Rank.
Proof.
  apply (inj_countable rank_index rank_of_index).
  intros []; reflexivity.
Defined.

Definition suits : list Suit := [Hearts; Diamonds; Clubs; Spades].

Definition values : list Rank :=
  [R2; R3; R4; R5; R6; R7; R8; R9; R10; Jack; Queen; King; Ace].

(** [[Card(suit, value) for suit in suits for value in values]] *)
Definition fresh_cards : list Card :=
  flat_map (fun s => map (mkCard s) values) suits.

(** ** The hand evaluator *)

(** [int(card.value)]: the source evaluates it on the numeral ranks only,
    the face cards and the Ace being taken by the branches before it. *)
Definition int_of_value (v : Rank) : Z :=
  match v with
  | R2 => 2 | R3 => 3 | R4 => 4 | R5 => 5 | R6 => 6 | R7 => 7 | R8 => 8
  | R9 => 9 | R10 => 10
  | Jack | Queen | King | Ace => 0
  end.

(** One iteration of [for card in hand], on the locals
    [(score, ace_count)]. *)
Definition score_card (acc : Z * nat) (card : Card) : Z * nat :=
  let '(score, ace_count) := acc in
  match value card with
  | Jack | Queen | King => (score + 10, ace_count)
  | Ace => (score + 11, S ace_count)
  | v => (score + int_of_value v, ace_count)
  end.

(** [while score > 21 and ace_count: score -= 10; ace_count -= 1] *)
Fixpoint soften (score : Z) (ace_count : nat) : Z :=
  match ace_count with
  | O => score
  | S k => if 21 <? score then soften (score - 10) k else score
  end.

Definition score_hand (hand : list Card) : Z :=
  let '(score, ace_count) := fold_left score_card hand (0, O) in
  soften score ace_count.

(** ** Python values and exceptions *)

(** The learning key [(player_total, dealer_visible_card, has_ace)];
    [None] is Python's [None] for a dealer hand not yet dealt. *)
Abbreviation State := (Z * option Rank * bool)%type.

(** The exceptions the modelled statements can raise. *)
Inductive exn :=
  | KeyError | IndexError | ValueError | UnboundLocalError.

(** The outcome of running a statement: it returns, it raises, or the
    model ran out of loop fuel before the statement did either. *)
Inductive result (A : Type) :=
  | Ok (a : A)
  | Raise (e : exn)
  | OutOfFuel.
Arguments Ok {A} a.
Arguments Raise {A} e.
Arguments OutOfFuel {A}.

(** [x < y] on floats, in exact arithmetic. *)
Definition Qltb (x y : Q) : bool :=
  Qnum x * QDen y <? Qnum y * QDen x.

(** [l.pop()]: the last element and the list without it. *)
Definition pop {A : Type} (l : list A) : option (A * list A) :=
  match rev l with
  | [] => None
  | x :: r => Some (x, rev r)
  end.

(** [max(l)] keeps the first of several maximal items. *)
Definition py_max (l : list Q) : option Q :=
  match l with
  | [] => None
  | x :: r => Some (fold_left (fun best y => if Qltb best y then y else best) r x)
  end.

(** [np.argmax(l)]: the first index that holds the maximum. *)
Fixpoint argmax_from (best : Q) (best_i i : nat) (l : list Q) : nat :=
  match l with
  | [] => best_i
  | y :: r =>
      if Qltb best y then argmax_from y i (S i) r
      else argmax_from best best_i (S i) r
  end.

Definition np_argmax (l : list Q) : option nat :=
  match l with
  | [] => None
  | x :: r => Some (argmax_from x 0 1 r)
  end.

(** ** The module [random] *)

(** The three entry points the program uses, as functions of the
    generator's state, with what the library promises of them. *)
Class Random (G : Type) := {
  shuffle : list Card -> G -> list Card * G;
  random : G -> Q * G;
  choice : list nat -> G -> nat * G;
  shuffle_perm : forall l g, Permutation (fst (shuffle l g)) l;
  random_range : forall g, (0 <= fst (random g))%Q /\ (fst (random g) < 1)%Q;
  choice_In : forall l g, l <> [] -> In (fst (choice l g)) l
}.

(** ** Objects *)

Record Deck := mkDeck { cards : list Card }.

Record Blackjack := mkBlackjack {
  deck : Deck;
  player_hand : list Card;
  dealer_hand : list Card;
  game_over : bool;
  alpha : Q;
  gamma : Q;
  epsilon : Q;
  q_table : gmap State (list Q)
}.

Definition set_deck (d : Deck) (b : Blackjack) : Blackjack :=
  mkBlackjack d (player_hand b) (dealer_hand b) (game_over b)
    (alpha b) (gamma b) (epsilon b) (q_table b).

Definition set_player_hand (h : list Card) (b : Blackjack) : Blackjack :=
  mkBlackjack (deck b) h (dealer_hand b) (game_over b)
    (alpha b) (gamma b) (epsilon b) (q_table b).

Definition set_dealer_hand (h : list Card) (b : Blackjack) : Blackjack :=
  mkBlackjack (deck b) (player_hand b) h (game_over b)
    (alpha b) (gamma b) (epsilon b) (q_table b).

Definition set_game_over (v : bool) (b : Blackjack) : Blackjack :=
  mkBlackjack (deck b) (player_hand b) (dealer_hand b) v
    (alpha b) (gamma b) (epsilon b) (q_table b).

Definition set_epsilon (e : Q) (b : Blackjack) : Blackjack :=
  mkBlackjack (deck b) (player_hand b) (dealer_hand b) (game_over b)
    (alpha b) (gamma b) e (q_table b).

Definition set_q_table (t : gmap State (list Q)) (b : Blackjack) : Blackjack :=
  mkBlackjack (deck b) (player_hand b) (dealer_hand b) (game_over b)
    (alpha b) (gamma b) (epsilon b) t.

(** [card.value == 'Ace'] *)
Definition is_ace (card : Card) : bool :=
  match value card with
  | Ace => true
  | _ => false
  end.

(** [compute_state]: the player's total, the rank of the dealer's first
    card, and whether some card that scores 11 on its own is an Ace. *)
Definition compute_state (b : Blackjack) : State :=
  let player_total := score_hand (player_hand b) in
  let dealer_visible_card :=
    match dealer_hand b with
    | [] => None
    | c :: _ => Some (value c)
    end in
  let has_ace :=
    existsb is_ace
      (List.filter (fun card => score_hand [card] =? 11) (player_hand b)) in
  (player_total, dealer_visible_card, has_ace).

(** The [if] chain of [get_winner] on its two locals. *)
Definition winner_of (player_score dealer_score : Z) : Z * string :=
  if 21 <? player_score then (-10, "Player busts! Dealer wins."%string)
  else if (21 <? dealer_score) || (dealer_score <? player_score)
    then (2, "Player wins!"%string)
  else if player_score <? dealer_score then (-1, "Dealer wins."%string)
  else (0, "It's a tie."%string).

(** [get_winner], without its [print]. *)
Definition get_winner (b : Blackjack) : Z * string :=
  let player_score := score_hand (player_hand b) in
  let dealer_score := score_hand (dealer_hand b) in
  winner_of player_score dealer_score.

(** The two actions, as the integers the program uses:
    ['Hit' if action == 0 else 'Stand']. *)
Definition Hit : nat := 0.
Definition Stand : nat := 1.

(** ** Statements: state and exceptions *)

Section Program.

Context {G : Type} `{Random G}.

(** What a statement can read and write: the [Blackjack] instance and the
    state of the generator behind [random]. *)
Record World := mkWorld { self : Blackjack; rng : G }.

(** A statement maps the world to its outcome and the world it leaves; a
    raised exception keeps the mutations made before it. *)
Definition M (A : Type) : Type := World -> result A * World.

Definition ret {A : Type} (a : A) : M A := fun w => (Ok a, w).

Definition bind {A B : Type} (m : M A) (k : A -> M B) : M B :=
  fun w =>
    match m w with
    | (Ok a, w') => k a w'
    | (Raise e, w') => (Raise e, w')
    | (OutOfFuel, w') => (OutOfFuel, w')
    end.

Definition raise {A : Type} (e : exn) : M A := fun w => (Raise e, w).

Definition diverge {A : Type} : M A := fun w => (OutOfFuel, w).

Definition gets {A : Type} (f : Blackjack -> A) : M A :=
  fun w => (Ok (f (self w)), w).

Definition modify (f : Blackjack -> Blackjack) : M unit :=
  fun w => (Ok tt, mkWorld (f (self w)) (rng w)).

(** Lift a call of the module [random]. *)
Definition draw {A : Type} (f : G -> A * G) : M A :=
  fun w => let '(a, g) := f (rng w) in (Ok a, mkWorld (self w) g).

(** An optional value, with the exception its absence stands for. *)
Definition or_raise {A : Type} (e : exn) (o : option A) : M A :=
  match o with
  | Some a => ret a
  | None => raise e
  end.

Notation "x <- m ;; k" := (bind m (fun x => k))
  (at level 100, m at next level, right associativity).
Notation "m ;;; k" := (bind m (fun _ => k))
  (at level 100, right associativity).

(** *** Class [Deck] *)

(** [Deck.__init__]: the 52 cards, shuffled. *)
Definition Deck_init (g : G) : Deck * G :=
  let '(cs, g') := shuffle fresh_cards g in (mkDeck cs, g').

(** [Deck.deal] on [self.deck]. *)
Definition deal : M Card :=
  d <- gets deck ;;
  (if (List.length (cards d) =? 0)%nat
   then d' <- draw Deck_init ;; modify (set_deck d')
   else ret tt) ;;;
  d <- gets deck ;;
  p <- or_raise IndexError (pop (cards d)) ;;
  modify (set_deck (mkDeck (snd p))) ;;;
  ret (fst p).

(** *** Class [Blackjack] *)

(** [Blackjack(alpha, gamma, epsilon)]: the constructor call, which runs
    [Blackjack.__init__] on a generator in state [g]. *)
Definition Blackjack_init (alpha gamma epsilon : Q) (g : G) : result World :=
  let '(d, g') := Deck_init g in
  Ok (mkWorld (mkBlackjack d [] [] false alpha gamma epsilon ∅) g').

(** [l[i]] for a natural index. *)
Definition getitem (l : list Q) (i : nat) : M Q := or_raise IndexError (l !! i).

Definition update_q_value (state : State) (action : nat) (reward : Z)
    (next_state : State) : M unit :=
  t <- gets q_table ;;
  current_q <- getitem (default [0%Q; 0%Q] (t !! state)) action ;;
  max_future_q <- or_raise ValueError (py_max (default [0%Q; 0%Q] (t !! next_state))) ;;
  a <- gets alpha ;;
  g <- gets gamma ;;
  let new_q := (current_q + a * (inject_Z reward + g * max_future_q - current_q))%Q in
  row <- or_raise KeyError (t !! state) ;;
  (if (action <? List.length row)%nat then ret tt else raise IndexError) ;;;
  modify (set_q_table (<[state := <[action := new_q]> row]> t)).

Definition ai_decision : M nat :=
  state <- gets compute_state ;;
  t <- gets q_table ;;
  (match t !! state with
   | None => modify (set_q_table (<[state := [0%Q; 0%Q]]> t))
   | Some _ => ret tt
   end) ;;;
  u <- draw random ;;
  eps <- gets epsilon ;;
  action <- (if Qltb u eps then draw (choice [0; 1]%nat)
             else
               t <- gets q_table ;;
               row <- or_raise KeyError (t !! state) ;;
               or_raise ValueError (np_argmax row)) ;;
  eps <- gets epsilon ;;
  modify (set_epsilon (eps * (995 # 1000))%Q) ;;;
  ret action.

Definition deal_initial_cards : M unit :=
  c1 <- deal ;;
  c2 <- deal ;;
  modify (set_player_hand [c1; c2]) ;;;
  c3 <- deal ;;
  c4 <- deal ;;
  modify (set_dealer_hand [c3; c4]).

Definition player_hit : M unit :=
  c <- deal ;;
  h <- gets player_hand ;;
  modify (set_player_hand (h ++ [c])) ;;;
  h <- gets player_hand ;;
  if 21 <? score_hand h then modify (set_game_over true) else ret tt.

(** The [while] of [dealer_turn]; [fuel] bounds the tests of its
    condition. *)
Fixpoint dealer_loop (fuel : nat) : M unit :=
  match fuel with
  | O => diverge
  | S k =>
      h <- gets dealer_hand ;;
      if score_hand h <? 17 then
        c <- deal ;;
        h <- gets dealer_hand ;;
        modify (set_dealer_hand (h ++ [c])) ;;;
        dealer_loop k
      else ret tt
  end.

Definition dealer_turn (fuel : nat) : M unit :=
  dealer_loop fuel ;;;
  modify (set_game_over true).

(** *** One round of [main]

    The statements of the driver loop from [game.deal_initial_cards()] to
    [game.game_over = False], without the prints and the win counters.
    The local [action] is bound by the decision loop only; [None] is the
    unbound local. *)
Fixpoint decision_loop (fuel : nat) (action : option nat) : M (option nat) :=
  match fuel with
  | O => diverge
  | S k =>
      over <- gets game_over ;;
      if over then ret action
      else
        a <- ai_decision ;;
        if (a =? 0)%nat then
          player_hit ;;;
          h <- gets player_hand ;;
          if 21 <? score_hand h then ret (Some a)
          else decision_loop k (Some a)
        else if (a =? 1)%nat then
          dealer_turn k ;;;
          decision_loop k (Some a)
        else decision_loop k (Some a)
  end.

Definition play_round (fuel : nat) (action : option nat) : M (option nat) :=
  deal_initial_cards ;;;
  prev_state <- gets compute_state ;;
  action <- decision_loop fuel action ;;
  next_state <- gets compute_state ;;
  outcome <- gets get_winner ;;
  let reward := fst outcome in
  a <- or_raise UnboundLocalError action ;;
  update_q_value prev_state a reward next_state ;;;
  modify (set_game_over false) ;;;
  ret action.

(** *** Sequences of calls

    The operations a driver can invoke on the instance, and a sequence of
    them run in order; [call_reset] is the driver's own
    [game.game_over = False]. *)
Inductive Call :=
  | call_compute_state
  | call_update_q_value (state : State) (action : nat) (reward : Z)
      (next_state : State)
  | call_ai_decision
  | call_deal_initial_cards
  | call_player_hit
  | call_dealer_turn (fuel : nat)
  | call_get_winner
  | call_reset.

Definition run_call (c : Call) : M unit :=
  match c with
  | call_compute_state => _ <- gets compute_state ;; ret tt
  | call_update_q_value s a r s' => update_q_value s a r s'
  | call_ai_decision => _ <- ai_decision ;; ret tt
  | call_deal_initial_cards => deal_initial_cards
  | call_player_hit => player_hit
  | call_dealer_turn fuel => dealer_turn fuel
  | call_get_winner => _ <- gets get_winner ;; ret tt
  | call_reset => modify (set_game_over false)
  end.

Fixpoint run_calls (cs : list Call) : M unit :=
  match cs with
  | [] => ret tt
  | c :: cs' => run_call c ;;; run_calls cs'
  end.

Fixpoint decisions_in (cs : list Call) : nat :=
  match cs with
  | [] => O
  | call_ai_decision :: cs' => S (decisions_in cs')
  | _ :: cs' => decisions_in cs'
  end.

End Program.

(** ** A generator to run the program on

    A counter: [shuffle] reverses, [random] returns 0 and [choice] cycles
    through the list. *)
Module Cycle.

Definition cycle_choice (l : list nat) (g : nat) : nat * nat :=
  (nth (g mod List.length l) l 0%nat, S g).

#[export] Instance random_nat : Random nat.
Proof.
  refine {| shuffle l g := (rev l, g);
            random g := (0%Q, g);
            choice := cycle_choice |}.
  - intros l g. symmetry. apply Permutation_rev.
  - intros g. split; [apply Qle_refl | reflexivity].
  - intros l g Hl. apply nth_In. apply Nat.mod_upper_bound.
    destruct l; [congruence | discriminate].
Defined.

End Cycle.

(** ** The hand evaluator as the specification words it

    Face cards are worth 10, an Ace 11 at first and the other ranks their
    number; while the total exceeds 21 and an Ace is still counted as 11,
    ten is taken off the total and one off the count of such Aces. *)

Definition card_points (c : Card) : Z :=
  match value c with
  | R2 => 2 | R3 => 3 | R4 => 4 | R5 => 5 | R6 => 6 | R7 => 7 | R8 => 8
  | R9 => 9 | R10 => 10
  | Jack | Queen | King => 10
  | Ace => 11
  end.

Definition points_total (hand : list Card) : Z :=
  foldr (fun c s => card_points c + s) 0 hand.

Definition aces_in (hand : list Card) : nat :=
  List.length (List.filter is_ace hand).

(** One pass of the specification's loop, on [(total, counted Aces)]. *)
Inductive reduce_step : Z * nat -> Z * nat -> Prop :=
  | reduce_ace total aces :
      21 < total ->
      reduce_step (total, S aces) (total - 10, aces).

(** The loop has stopped: the total is at most 21 or no Ace counts 11. *)
Definition reduce_done (st : Z * nat) : Prop :=
  fst st <= 21 \/ snd st = O.

Definition reference_score (hand : list Card) (total : Z) : Prop :=
  exists aces,
    rtc reduce_step (points_total hand, aces_in hand) (total, aces) /\
    reduce_done (total, aces).

(** The total with every Ace counted as 1. *)
Definition hard_points (c : Card) : Z :=
  if is_ace c then 1 else card_points c.

Definition hard_total (hand : list Card) : Z :=
  foldr (fun c s => hard_points c + s) 0 hand.

(** ** The outcome branches as the specification words them *)

Inductive Branch := PlayerBusts | PlayerWins | DealerWins | Tie.

(** When each branch fires, in priority order. *)
Definition branch_fires (br : Branch) (player_score dealer_score : Z) : Prop :=
  match br with
  | PlayerBusts => 21 < player_score
  | PlayerWins =>
      ~ 21 < player_score /\
      (21 < dealer_score \/ dealer_score < player_score)
  | DealerWins =>
      ~ 21 < player_score /\
      ~ (21 < dealer_score \/ dealer_score < player_score) /\
      player_score < dealer_score
  | Tie =>
      ~ 21 < player_score /\
      ~ (21 < dealer_score \/ dealer_score < player_score) /\
      ~ player_score < dealer_score
  end.

Definition branch_reward (br : Branch) : Z :=
  match br with
  | PlayerBusts => -10
  | PlayerWins => 2
  | DealerWins => -1
  | Tie => 0
  end.

(** ** The state machine and the configuration ranges of the
    specification *)

Inductive Phase := NotStarted | InProgress | Terminal.

(** The phase a [Blackjack] instance is in, read off its fields. *)
Definition phase_of (b : Blackjack) : Phase :=
  if game_over b then Terminal
  else match player_hand b with
       | [] => NotStarted
       | _ => InProgress
       end.

(** alpha in (0,1], gamma in [0,1], epsilon a probability. *)
Definition valid_configuration (alpha gamma epsilon : Q) : Prop :=
  (0 < alpha /\ alpha <= 1)%Q /\
  (0 <= gamma /\ gamma <= 1)%Q /\
  (0 <= epsilon /\ epsilon <= 1)%Q.

(** ** Auxiliary definitions for the statements *)

(** What [player_hit] leaves: the dealt card at the end of the player's
    hand, and [game_over] raised when the hand busts. *)
Definition after_hit (c : Card) (d : Deck) (b : Blackjack) : Blackjack :=
  let b' := set_player_hand (player_hand b ++ [c]) (set_deck d b) in
  if 21 <? score_hand (player_hand b') then set_game_over true b' else b'.

(** The table after the lazy initialisation of [ai_decision]. *)
Definition with_row (s : State) (t : gmap State (list Q)) : gmap State (list Q) :=
  match t !! s with
  | None => <[s := [0%Q; 0%Q]]> t
  | Some _ => t
  end.

(** The value [update_q_value] stores. *)
Definition td_target (b : Blackjack) (current_q : Q) (reward : Z)
    (max_future_q : Q) : Q :=
  (current_q
   + alpha b * (inject_Z reward + gamma b * max_future_q - current_q))%Q.

(** Every row of the table is a pair, as [ai_decision] creates them. *)
Definition rows_ok (t : gmap State (list Q)) : Prop :=
  forall s row, t !! s = Some row -> List.length row = 2%nat.

(** The calls that return in every such state: all but the update, which
    raises on an absent state, the dealer's turn with fuel from 18 on. *)
Definition plain_call (c : Call) : Prop :=
  match c with
  | call_update_q_value _ _ _ _ => False
  | call_dealer_turn fuel => (18 <= fuel)%nat
  | _ => True
  end.

(** ** Worlds on the cycling generator *)

Import Cycle.

(** A new game with the default parameters: the deck is the 52 cards in
    reverse order, so the deals are the 2, 3, 4, ... of Hearts. *)
Definition new_game : World :=
  mkWorld (mkBlackjack (mkDeck (rev fresh_cards)) [] [] false
             (1 # 2) (9 # 10) 1 ∅) 0%nat.

Definition dealt_game : World := snd (deal_initial_cards new_game).
Definition first_choice : World := snd (ai_decision dealt_game).
Definition after_first_hit : World := snd (player_hit first_choice).
Definition second_choice : World := snd (ai_decision after_first_hit).
Definition stood_game : World := snd (dealer_turn 18 second_choice).
Definition round_end : World := snd (play_round 30 None new_game).

(** A dealer on a soft 16 with a 6 on top of the deck. *)
Definition soft_dealer : World :=
  mkWorld (mkBlackjack (mkDeck [mkCard Clubs King; mkCard Clubs R6])
             [mkCard Diamonds R10; mkCard Diamonds R9]
             [mkCard Spades Ace; mkCard Hearts R5] false
             (1 # 2) (9 # 10) 1 ∅) 0%nat.

(** A player on 5 against a 4, an agent that no longer explores and has
    the row [row] for that state. *)
Definition greedy_game (row : list Q) : World :=
  mkWorld (mkBlackjack (mkDeck (rev fresh_cards))
             [mkCard Hearts R2; mkCard Hearts R3]
             [mkCard Hearts R4; mkCard Hearts R5] false
             (1 # 2) (9 # 10) 0 {[ (5, Some R4, false) := row ]}) 0%nat.

(** The calls of the round played from [new_game]. *)
Definition round_calls : list Call :=
  [call_deal_initial_cards; call_compute_state; call_ai_decision;
   call_player_hit; call_ai_decision; call_dealer_turn 18;
   call_compute_state; call_get_winner;
   call_update_q_value (5, Some R4, false) Stand 2 (11, Some R4, false);
   call_reset].

(** ** Further auxiliary definitions *)

(** [q_table[s][a]], when the state is in the table and the index in
    the row. *)
Definition q_value (t : gmap State (list Q)) (s : State) (a : nat) : option Q :=
  match t !! s with
  | Some row => row !! a
  | None => None
  end.

(** What the update moves a value towards:
    [reward + gamma * max_future_q]. *)
Definition td_goal (b : Blackjack) (reward : Z) (max_future_q : Q) : Q :=
  (inject_Z reward + gamma b * max_future_q)%Q.

(** ** The driver loop of [main]

    The console is the list of lines the [input()] calls will return;
    each line comes with its lower-cased text and with what [int] makes
    of it, [None] where [int] raises [ValueError]. The prints, the plot
    and the pause between rounds are left out, and with the pause the
    local [initial_rounds] that only it reads. *)

Record Line := mkLine { lowered : string; as_int : option Z }.

(** The locals of [main] that outlive an iteration. *)
Record Locals := mkLocals {
  auto_play : bool;
  rounds_to_play : Z;
  round_count : Z;
  total_wins : Z;
  total_losses : Z;
  total_ties : Z;
  win_rates : list Q;
  last_action : option nat
}.

(** The locals at the top of [main]; [action] is not yet bound. *)
Definition start_locals : Locals :=
  mkLocals false 0 0 0 0 0 [] None.

Definition set_auto (a : bool) (n : Z) (l : Locals) : Locals :=
  mkLocals a n (round_count l) (total_wins l) (total_losses l)
    (total_ties l) (win_rates l) (last_action l).

Definition begin_round (l : Locals) : Locals :=
  mkLocals (auto_play l) (rounds_to_play l) (round_count l + 1)
    (total_wins l) (total_losses l) (total_ties l) (win_rates l)
    (last_action l).

(** The bookkeeping after [get_winner]: one of the three counters goes
    up and the win percentage, ties left out, is appended to
    [win_rates]. *)
Definition tally (action : option nat) (reward : Z) (l : Locals) : Locals :=
  let wins := if reward =? 2 then total_wins l + 1 else total_wins l in
  let losses :=
    if reward =? 2 then total_losses l
    else if (reward =? -1) || (reward =? -10) then total_losses l + 1
    else total_losses l in
  let ties :=
    if reward =? 2 then total_ties l
    else if (reward =? -1) || (reward =? -10) then total_ties l
    else total_ties l + 1 in
  let win_percentage :=
    if 0 <? wins + losses
    then (inject_Z wins / inject_Z (wins + losses) * 100)%Q
    else 0%Q in
  mkLocals (auto_play l) (rounds_to_play l) (round_count l)
    wins losses ties (win_rates l ++ [win_percentage]) action.

(** How [main] ends: the user's ['n'], an exception out of a round, the
    console running dry under an [input()], or the model out of fuel. *)
Inductive Exit :=
  | Goodbye
  | Crashed (e : exn)
  | EndOfInput
  | Unfinished.

Section Driver.

Context {G : Type} `{Random G}.

#[local] Abbreviation World := (@World G).

(** The round of [main] once more, returning the reward with the action:
    the driver's counters read it. *)
Definition main_round (fuel : nat) (action : option nat)
    : M (option nat * Z) :=
  bind deal_initial_cards (fun _ =>
  bind (gets compute_state) (fun prev_state =>
  bind (decision_loop fuel action) (fun action =>
  bind (gets compute_state) (fun next_state =>
  bind (gets get_winner) (fun outcome =>
  let reward := fst outcome in
  bind (or_raise UnboundLocalError action) (fun a =>
  bind (update_q_value prev_state a reward next_state) (fun _ =>
  bind (modify (set_game_over false)) (fun _ =>
  ret (action, reward))))))))).

(** [while True:] with [fuel] iterations; every round gets
    [round_fuel]. *)
Fixpoint main_loop (fuel round_fuel : nat) (console : list Line)
    (l : Locals) (w : World) : Exit * Locals * World :=
  match fuel with
  | O => (Unfinished, l, w)
  | S k =>
      let play (l : Locals) (console : list Line) :=
        let l1 := begin_round l in
        match main_round round_fuel (last_action l1) w with
        | (Ok (action, reward), w') =>
            main_loop k round_fuel console (tally action reward l1) w'
        | (Raise e, w') => (Crashed e, l1, w')
        | (OutOfFuel, w') => (Unfinished, l1, w')
        end in
      if auto_play l then
        if 0 <? rounds_to_play l
        then play (set_auto true (rounds_to_play l - 1) l) console
        else main_loop k round_fuel console (set_auto false (rounds_to_play l) l) w
      else
        match console with
        | [] => (EndOfInput, l, w)
        | line :: rest =>
            let continue_playing := lowered line in
            if String.eqb continue_playing "n" then (Goodbye, l, w)
            else if String.eqb continue_playing "y" then play l rest
            else if String.eqb continue_playing "plot"
              then main_loop k round_fuel rest l w
            else if String.eqb continue_playing "auto" then
              match rest with
              | [] => (EndOfInput, l, w)
              | rounds_input :: rest' =>
                  match as_int rounds_input with
                  | Some n =>
                      if (10 <=? n) && (n <=? 5000)
                      then main_loop k round_fuel rest' (set_auto true n l) w
                      else main_loop k round_fuel rest' (set_auto false n l) w
                  | None => main_loop k round_fuel rest' l w
                  end
              end
            else main_loop k round_fuel rest l w
        end
  end.

End Driver.

(** The counters agree with each other: none is negative, they add up to
    the number of rounds, which is the length of [win_rates], and every
    rate is a percentage. *)
Definition tallied (l : Locals) : Prop :=
  0 <= total_wins l /\ 0 <= total_losses l /\ 0 <= total_ties l /\
  round_count l = total_wins l + total_losses l + total_ties l /\
  Z.of_nat (List.length (win_rates l)) = round_count l /\
  Forall (fun r => (0 <= r)%Q /\ (r <= 100)%Q) (win_rates l).

(** A typed line, for a console written out by hand. *)
Definition typed (s : string) : Line := mkLine s None.
Definition typed_number (s : string) (n : Z) : Line := mkLine s (Some n).

(** ** More worlds on the cycling generator *)

(** A new game whose deck has run out. *)
Definition empty_deck_game : World :=
  mkWorld (mkBlackjack (mkDeck []) [] [] false (1 # 2) (9 # 10) 1 ∅) 0%nat.

(** A player on 20 with a 5 on top of the deck. *)
Definition bust_game : World :=
  mkWorld (mkBlackjack (mkDeck [mkCard Clubs R5])
             [mkCard Spades King; mkCard Spades Queen]
             [mkCard Diamonds R9; mkCard Diamonds R8] false
             (1 # 2) (9 # 10) 1 ∅) 0%nat.

(** The user asks for ten rounds and then leaves. *)
Definition auto_console : list Line :=
  [typed "auto"; typed_number "10" 10; typed "n"].

(** ** Scoring *)

Lemma score_fold (hand : list Card) (s : Z) (a : nat) :
  fold_left score_card hand (s, a)
  = (s + points_total hand, (a + aces_in hand)%nat).
Proof.
  unfold aces_in.
  revert s a. induction hand as [|c hand IH]; intros s a; simpl.
  - f_equal; lia.
  - destruct c as [su []]; cbn; rewrite IH; unfold card_points; cbn;
      f_equal; lia.
Qed.

Lemma score_hand_unfold (hand : list Card) :
  score_hand hand = soften (points_total hand) (aces_in hand).
Proof. unfold score_hand. rewrite score_fold. reflexivity. Qed.

Lemma soften_reduces (s : Z) (a : nat) :
  exists a', rtc reduce_step (s, a) (soften s a, a') /\
             reduce_done (soften s a, a').
Proof.
  revert s. induction a as [|a IH]; intros s; simpl.
  - exists O. split; [constructor | right; reflexivity].
  - destruct (21 <? s) eqn:E.
    + apply Z.ltb_lt in E. destruct (IH (s - 10)) as (a' & Hr & Hd).
      exists a'. split; [|exact Hd].
      eapply rtc_l; [apply reduce_ace; exact E | exact Hr].
    + apply Z.ltb_ge in E. exists (S a).
      split; [constructor | left; exact E].
Qed.

Lemma reduce_normal_form (x y : Z * nat) :
  rtc reduce_step x y -> reduce_done y -> y = (soften (fst x) (snd x), snd y).
Proof.
  induction 1 as [[s a]|x y z Hstep Hrtc IH]; intros Hd.
  - simpl. f_equal. destruct Hd as [Hd|Hd]; simpl in Hd.
    + destruct a; simpl; [reflexivity|].
      destruct (21 <? s) eqn:E; [apply Z.ltb_lt in E; lia | reflexivity].
    + subst a. reflexivity.
  - rewrite (IH Hd). destruct Hstep as [s a Hs]. simpl.
    apply Z.ltb_lt in Hs. rewrite Hs. reflexivity.
Qed.

Lemma hard_le_points (c : Card) : 1 <= hard_points c <= card_points c.
Proof. destruct c as [su []]; unfold hard_points, card_points; simpl; lia. Qed.

Lemma points_total_cons (c : Card) (hand : list Card) :
  points_total (c :: hand) = card_points c + points_total hand.
Proof. reflexivity. Qed.

Lemma hard_total_cons (c : Card) (hand : list Card) :
  hard_total (c :: hand) = hard_points c + hard_total hand.
Proof. reflexivity. Qed.

Lemma aces_in_cons (c : Card) (hand : list Card) :
  aces_in (c :: hand) = if is_ace c then S (aces_in hand) else aces_in hand.
Proof. unfold aces_in. simpl. destruct (is_ace c); reflexivity. Qed.

Lemma points_hard (hand : list Card) :
  points_total hand = hard_total hand + 10 * Z.of_nat (aces_in hand).
Proof.
  induction hand as [|c hand IH]; [reflexivity|].
  rewrite points_total_cons, hard_total_cons, aces_in_cons, IH.
  unfold hard_points. destruct c as [su []]; cbn; lia.
Qed.

Lemma soften_lower (s : Z) (a : nat) : s - 10 * Z.of_nat a <= soften s a.
Proof.
  revert s. induction a as [|a IH]; intros s; simpl soften; [lia|].
  destruct (21 <? s); [specialize (IH (s - 10))|]; lia.
Qed.

Lemma soften_upper (s : Z) (a : nat) : soften s a <= s.
Proof.
  revert s. induction a as [|a IH]; intros s; simpl soften; [lia|].
  destruct (21 <? s); [specialize (IH (s - 10))|]; lia.
Qed.

Lemma hard_total_le_score (hand : list Card) :
  hard_total hand <= score_hand hand.
Proof.
  rewrite score_hand_unfold.
  pose proof (soften_lower (points_total hand) (aces_in hand)) as Hs.
  rewrite points_hard in *. lia.
Qed.

Lemma hard_total_app (hand : list Card) (c : Card) :
  hard_total (hand ++ [c]) = hard_total hand + hard_points c.
Proof.
  induction hand as [|c' hand IH]; simpl app.
  - rewrite hard_total_cons. cbn. lia.
  - rewrite !hard_total_cons, IH. lia.
Qed.

Lemma hard_total_nonneg (hand : list Card) : 0 <= hard_total hand.
Proof.
  induction hand as [|c hand IH]; [cbn; lia|].
  rewrite hard_total_cons. pose proof (hard_le_points c). lia.
Qed.

(** C6: for every hand the score is the result of the reference
    evaluation (the ranks summed with face cards 10 and Aces 11, then ten
    taken off while the total exceeds 21 and an Ace still counts 11), and
    that result is unique; two Aces and a 9 score 21, a King and a Queen
    score 20 and the empty hand scores 0. *)
Theorem score_hand_reference :
  (forall hand, reference_score hand (score_hand hand)) /\
  (forall hand total, reference_score hand total -> total = score_hand hand) /\
  (forall s1 s2 s3,
      score_hand [mkCard s1 Ace; mkCard s2 Ace; mkCard s3 R9] = 21) /\
  (forall s1 s2, score_hand [mkCard s1 King; mkCard s2 Queen] = 20) /\
  score_hand [] = 0.
Proof.
  repeat split.
  - intros hand. rewrite score_hand_unfold.
    destruct (soften_reduces (points_total hand) (aces_in hand)) as (a & Hr & Hd).
    exists a. split; assumption.
  - intros hand total (a & Hr & Hd). rewrite score_hand_unfold.
    apply reduce_normal_form in Hr; [|exact Hd].
    simpl in Hr. congruence.
Qed.

Lemma winner_of_cases (player_score dealer_score : Z) :
  exists br,
    branch_fires br player_score dealer_score /\
    (forall br', branch_fires br' player_score dealer_score -> br' = br) /\
    fst (winner_of player_score dealer_score) = branch_reward br.
Proof.
  unfold winner_of.
  destruct (Z.ltb_spec 21 player_score) as [E1|E1].
  { exists PlayerBusts. split; [exact E1|]. split; [|reflexivity].
    intros []; simpl; intros; try reflexivity; exfalso; lia. }
  destruct (Z.ltb_spec 21 dealer_score) as [E2|E2]; simpl.
  { exists PlayerWins. split; [simpl; lia|]. split; [|reflexivity].
    intros []; simpl; intros; try reflexivity; exfalso; lia. }
  destruct (Z.ltb_spec dealer_score player_score) as [E3|E3]; simpl.
  { exists PlayerWins. split; [simpl; lia|]. split; [|reflexivity].
    intros []; simpl; intros; try reflexivity; exfalso; lia. }
  destruct (Z.ltb_spec player_score dealer_score) as [E4|E4]; simpl.
  { exists DealerWins. split; [simpl; lia|]. split; [|reflexivity].
    intros []; simpl; intros; try reflexivity; exfalso; lia. }
  exists Tie. split; [simpl; lia|]. split; [|reflexivity].
  intros []; simpl; intros; try reflexivity; exfalso; lia.
Qed.

(** C5: for every pair of final scores exactly one of the four outcome
    branches fires, and [get_winner] returns the reward of that branch:
    -10 when the player busts, else +2 when the dealer busts or the player
    is ahead, else -1 when the dealer is ahead, else 0. *)
Theorem winner_branches (player_score dealer_score : Z) :
  exists br,
    branch_fires br player_score dealer_score /\
    (forall br', branch_fires br' player_score dealer_score -> br' = br) /\
    fst (winner_of player_score dealer_score) = branch_reward br /\
    (forall b,
        score_hand (player_hand b) = player_score ->
        score_hand (dealer_hand b) = dealer_score ->
        fst (get_winner b) = branch_reward br).
Proof.
  destruct (winner_of_cases player_score dealer_score) as (br & Hf & Hu & Hr).
  exists br. repeat split; try assumption.
  intros b Hp Hd. unfold get_winner. rewrite Hp, Hd. exact Hr.
Qed.

(** ** The learning state *)

Lemma is_ace_value (c : Card) : is_ace c = true <-> value c = Ace.
Proof. destruct c as [su []]; cbn; split; congruence. Qed.

Lemma lone_ace_scores_11 (c : Card) : value c = Ace -> score_hand [c] = 11.
Proof. destruct c as [su r]; cbn. intros ->. reflexivity. Qed.

(** C10: the third component of the learning state is true exactly when
    the player's hand holds an Ace, since an Ace scored alone is 11; it is
    true for the hard hand Ace, 9, 9, which scores 19 with its Ace
    counted as 1. *)
Theorem has_ace_iff_holds_ace :
  (forall b : Blackjack,
      snd (compute_state b) = true
      <-> exists c, In c (player_hand b) /\ value c = Ace) /\
  (forall c : Card, value c = Ace -> score_hand [c] = 11) /\
  (forall (b : Blackjack) s1 s2 s3,
      player_hand b = [mkCard s1 Ace; mkCard s2 R9; mkCard s3 R9] ->
      fst (fst (compute_state b)) = 19 /\
      snd (compute_state b) = true /\
      hard_total (player_hand b) = score_hand (player_hand b)).
Proof.
  split; [|split].
  - intros b. unfold compute_state. cbn [snd].
    rewrite existsb_exists. split.
    + intros (c & Hin & Hace). apply filter_In in Hin as [Hin _].
      exists c. split; [exact Hin | apply is_ace_value; exact Hace].
    + intros (c & Hin & Hace). exists c. split.
      * apply filter_In. split; [exact Hin|].
        rewrite (lone_ace_scores_11 c Hace). reflexivity.
      * apply is_ace_value. exact Hace.
  - exact lone_ace_scores_11.
  - intros b s1 s2 s3 Hhand. unfold compute_state. rewrite Hhand.
    repeat split.
Qed.

(** ** The deck *)

Lemma pop_snoc {A : Type} (l : list A) (x : A) : pop (l ++ [x]) = Some (x, l).
Proof. unfold pop. rewrite rev_app_distr. simpl. rewrite rev_involutive. reflexivity. Qed.

Lemma pop_nonempty {A : Type} (l : list A) :
  l <> [] -> exists x r, pop l = Some (x, r).
Proof.
  intros Hl. destruct (exists_last Hl) as (r & x & ->).
  exists x, r. apply pop_snoc.
Qed.

Section Facts.

Context {G : Type} `{Random G}.

#[local] Abbreviation World := (@World G).

Ltac run :=
  unfold bind, gets, modify, draw, ret, raise, or_raise, diverge;
  cbn -[Nat.ltb].

(** A fresh deck holds cards, whatever the shuffle. *)
Lemma Deck_init_nonempty (g : G) : cards (fst (Deck_init g)) <> [].
Proof.
  unfold Deck_init. pose proof (shuffle_perm fresh_cards g) as Hp.
  destruct (shuffle fresh_cards g) as [cs g']. simpl in *.
  intros ->. apply Permutation_nil in Hp. discriminate.
Qed.

(** [deal] always returns a card: an empty deck is refilled first. Only
    the deck and the generator change. *)
Lemma deal_returns (w : World) :
  exists c d g, deal w = (Ok c, mkWorld (set_deck d (self w)) g).
Proof.
  unfold deal. run.
  destruct (List.length (cards (deck (self w))) =? 0)%nat eqn:E; cbn.
  - pose proof (Deck_init_nonempty (rng w)) as Hne.
    destruct (Deck_init (rng w)) as [d g] eqn:Ed. cbn in *.
    destruct (pop_nonempty _ Hne) as (x & r & ->). cbn.
    exists x, (mkDeck r), g. reflexivity.
  - assert (Hne : cards (deck (self w)) <> []).
    { intros Hnil. rewrite Hnil in E. discriminate. }
    destruct (pop_nonempty _ Hne) as (x & r & ->). cbn.
    exists x, (mkDeck r), (rng w). reflexivity.
Qed.

#[local] Opaque deal.

(** ** The game operations return in every state *)

Lemma player_hit_returns (w : World) :
  exists c d g, player_hit w = (Ok tt, mkWorld (after_hit c d (self w)) g).
Proof.
  destruct (deal_returns w) as (c & d & g & Hd).
  exists c, d, g. unfold player_hit, after_hit. run. rewrite Hd. cbn.
  destruct (21 <? score_hand (player_hand (self w) ++ [c])); reflexivity.
Qed.

Lemma deal_initial_cards_returns (w : World) :
  exists c1 c2 c3 c4 d g,
    deal_initial_cards w
    = (Ok tt, mkWorld (set_dealer_hand [c3; c4]
                         (set_player_hand [c1; c2] (set_deck d (self w)))) g).
Proof.
  unfold deal_initial_cards. run.
  destruct (deal_returns w) as (c1 & d1 & g1 & ->).
  destruct (deal_returns (mkWorld (set_deck d1 (self w)) g1)) as (c2 & d2 & g2 & ->).
  cbn.
  match goal with |- context [deal ?w'] =>
    destruct (deal_returns w') as (c3 & d3 & g3 & ->) end.
  match goal with |- context [deal ?w'] =>
    destruct (deal_returns w') as (c4 & d4 & g4 & ->) end.
  cbn. exists c1, c2, c3, c4, d4, g4. reflexivity.
Qed.

(** The dealer's loop draws until the score reaches 17. The hard total of
    the dealer's hand grows with every card and bounds the score from
    below, so a positive [fuel] above [17 - hard_total] is enough. *)
Lemma dealer_loop_returns (fuel : nat) (w : World) :
  Z.max 0 (17 - hard_total (dealer_hand (self w))) < Z.of_nat fuel ->
  exists extra d g,
    dealer_loop fuel w
    = (Ok tt, mkWorld (set_dealer_hand (dealer_hand (self w) ++ extra)
                         (set_deck d (self w))) g) /\
    17 <= score_hand (dealer_hand (self w) ++ extra).
Proof.
  revert w. induction fuel as [|fuel IH]; intros w Hfuel.
  - exfalso. lia.
  - cbn [dealer_loop]. run.
    pose proof (hard_total_le_score (dealer_hand (self w))) as Hhard.
    destruct (Z.ltb_spec (score_hand (dealer_hand (self w))) 17) as [Hlt|Hge].
    + destruct (deal_returns w) as (c & d & g & ->). cbn.
      set (w1 := mkWorld (set_dealer_hand (dealer_hand (self w) ++ [c])
                            (set_deck d (self w))) g).
      destruct (IH w1) as (extra & d' & g' & Hrun & Hscore).
      { subst w1. cbn. rewrite hard_total_app.
        pose proof (hard_le_points c). lia. }
      rewrite Hrun. subst w1. cbn in *.
      exists (c :: extra), d', g'.
      rewrite <- app_assoc in *. cbn in *. split; [reflexivity | exact Hscore].
    + exists [], (deck (self w)), (rng w). rewrite app_nil_r.
      split; [|exact Hge].
      destruct w as [[] ?]; reflexivity.
Qed.

Lemma dealer_loop_more_fuel (fuel k : nat) (w w' : World) :
  dealer_loop fuel w = (Ok tt, w') -> dealer_loop (fuel + k) w = (Ok tt, w').
Proof.
  revert w. induction fuel as [|fuel IH]; intros w; [discriminate|].
  cbn [dealer_loop Nat.add]. run.
  destruct (score_hand (dealer_hand (self w)) <? 17); [|trivial].
  destruct (deal_returns w) as (c & d & g & ->). cbn. apply IH.
Qed.

Lemma dealer_turn_returns (w : World) (k : nat) :
  exists extra d g,
    dealer_turn (18 + k) w
    = (Ok tt, mkWorld (set_game_over true
                         (set_dealer_hand (dealer_hand (self w) ++ extra)
                            (set_deck d (self w)))) g) /\
    dealer_turn (18 + k) w = dealer_turn 18 w /\
    17 <= score_hand (dealer_hand (self w) ++ extra).
Proof.
  destruct (dealer_loop_returns 18 w) as (extra & d & g & Hrun & Hscore).
  { pose proof (hard_total_nonneg (dealer_hand (self w))). lia. }
  exists extra, d, g.
  pose proof (dealer_loop_more_fuel 18 k w _ Hrun) as Hmore.
  unfold dealer_turn, bind. rewrite Hmore, Hrun.
  repeat split. exact Hscore.
Qed.

(** C4 (as amended): from every deck and every dealer hand the dealer's
    turn returns, with every fuel from 18 on and with the same result, and
    leaves a dealer score of at least 17 with [game_over] set. It ends
    because every dealt card adds at least 1 to the hard total of the
    hand, which the score is never below, and [deal] refills an empty deck
    and always hands out a card. *)
Theorem dealer_turn_terminates (w : World) (k : nat) :
  (exists extra d g,
      dealer_turn (18 + k) w
      = (Ok tt, mkWorld (set_game_over true
                           (set_dealer_hand (dealer_hand (self w) ++ extra)
                              (set_deck d (self w)))) g) /\
      dealer_turn (18 + k) w = dealer_turn 18 w /\
      17 <= score_hand (dealer_hand (self w) ++ extra)) /\
  (forall hand c, hard_total hand + 1 <= hard_total (hand ++ [c])) /\
  (forall hand, hard_total hand <= score_hand hand) /\
  (forall w0 : World,
      exists c d g, deal w0 = (Ok c, mkWorld (set_deck d (self w0)) g)).
Proof.
  split; [|split; [|split]].
  - apply dealer_turn_returns.
  - intros hand c. rewrite hard_total_app.
    pose proof (hard_le_points c). lia.
  - exact hard_total_le_score.
  - exact deal_returns.
Qed.

(** C2 (as amended): the game operations have no state-machine guard and
    signal no error. In every state, whatever the phase, [player_hit]
    deals one more card to the player and returns, [deal_initial_cards]
    replaces both hands and returns, the dealer's turn returns, and
    [get_winner] returns the outcome of the current hands without looking
    at [game_over]. *)
Theorem operations_unguarded (w : World) :
  (exists c d g, player_hit w = (Ok tt, mkWorld (after_hit c d (self w)) g)) /\
  (exists c1 c2 c3 c4 d g,
      deal_initial_cards w
      = (Ok tt, mkWorld (set_dealer_hand [c3; c4]
                           (set_player_hand [c1; c2] (set_deck d (self w)))) g)) /\
  (exists w', dealer_turn 18 w = (Ok tt, w')) /\
  (forall v, get_winner (set_game_over v (self w)) = get_winner (self w)) /\
  (exists br, fst (get_winner (self w)) = branch_reward br).
Proof.
  split; [apply player_hit_returns|].
  split; [apply deal_initial_cards_returns|].
  split; [|split].
  - destruct (dealer_turn_returns w 0) as (extra & d & g & Hrun & _).
    eexists. exact Hrun.
  - intros v. reflexivity.
  - unfold get_winner.
    destruct (winner_of_cases (score_hand (player_hand (self w)))
                (score_hand (dealer_hand (self w)))) as (br & _ & _ & Hr).
    exists br. exact Hr.
Qed.

(** C3 (as amended): the constructor checks no range. Every alpha, gamma
    and epsilon is accepted and stored as given, with empty hands, an
    empty Q-table and a freshly shuffled deck; construction never
    fails. *)
Theorem constructor_accepts_all (alpha0 gamma0 epsilon0 : Q) (g : G) :
  exists d g',
    Blackjack_init alpha0 gamma0 epsilon0 g
    = Ok (mkWorld (mkBlackjack d [] [] false alpha0 gamma0 epsilon0 ∅) g') /\
    Permutation (cards d) fresh_cards.
Proof.
  unfold Blackjack_init, Deck_init.
  pose proof (shuffle_perm fresh_cards g) as Hp.
  destruct (shuffle fresh_cards g) as [cs g']. cbn in Hp.
  exists (mkDeck cs), g'. split; [reflexivity | exact Hp].
Qed.

(** ** The agent *)

Lemma Qltb_lt (x y : Q) : Qltb x y = true <-> (x < y)%Q.
Proof. unfold Qltb, Qlt. apply Z.ltb_lt. Qed.

Lemma Qltb_ge (x y : Q) : Qltb x y = false <-> (y <= x)%Q.
Proof. unfold Qltb, Qle. apply Z.ltb_ge. Qed.

Lemma update_q_value_ok (w : World) (state next_state : State)
    (action : nat) (reward : Z) (row : list Q) (current_q max_future_q : Q) :
  q_table (self w) !! state = Some row ->
  row !! action = Some current_q ->
  py_max (default [0%Q; 0%Q] (q_table (self w) !! next_state))
  = Some max_future_q ->
  update_q_value state action reward next_state w
  = (Ok tt,
     mkWorld
       (set_q_table
          (<[state := <[action := td_target (self w) current_q reward
                                    max_future_q]> row]> (q_table (self w)))
          (self w))
       (rng w)).
Proof.
  intros Hrow Hcur Hmx. unfold update_q_value, getitem. run.
  rewrite Hrow, Hmx. cbn -[Nat.ltb]. rewrite Hcur. cbn -[Nat.ltb].
  assert (Hlt : (action <? List.length row)%nat = true).
  { apply Nat.ltb_lt. eapply lookup_lt_Some. exact Hcur. }
  rewrite Hlt. reflexivity.
Qed.

(** [update_q_value] either raises and leaves the world as it is, or
    stores the new value in the one row and returns. *)
Lemma update_q_value_cases (w : World) (state next_state : State)
    (action : nat) (reward : Z) :
  (exists e, update_q_value state action reward next_state w = (Raise e, w)) \/
  (exists row current_q max_future_q,
      q_table (self w) !! state = Some row /\
      row !! action = Some current_q /\
      py_max (default [0%Q; 0%Q] (q_table (self w) !! next_state))
      = Some max_future_q).
Proof.
  destruct (q_table (self w) !! state) as [row|] eqn:Hrow.
  - destruct (row !! action) as [cur|] eqn:Hcur.
    + destruct (py_max (default [0%Q; 0%Q] (q_table (self w) !! next_state)))
        as [mx|] eqn:Hmx.
      * right. exists row, cur, mx. repeat split; assumption.
      * left. unfold update_q_value, getitem. run.
        rewrite Hrow, Hmx. cbn. rewrite Hcur. cbn. eexists; reflexivity.
    + left. unfold update_q_value, getitem. run.
      rewrite Hrow. cbn. rewrite Hcur. cbn. eexists; reflexivity.
  - left. unfold update_q_value, getitem. run. rewrite Hrow. cbn.
    destruct (action) as [|[|n]]; cbn; try (eexists; reflexivity);
      destruct (py_max (default [0%Q; 0%Q] (q_table (self w) !! next_state)));
      cbn; eexists; reflexivity.
Qed.

(** C9: when the prior state is in the table, the update changes the
    entry of that state and action and nothing else: the other rows, the
    other entries of the row, the keys of the table and the rest of the
    world stay as they were. A next state that is absent stays absent, and
    its future value is read as the maximum of the default row, 0. *)
Theorem update_touches_one_entry (w : World) (state next_state : State)
    (action : nat) (reward : Z) (row : list Q) :
  q_table (self w) !! state = Some row ->
  let r := update_q_value state action reward next_state w in
  let t := q_table (self w) in
  let t' := q_table (self (snd r)) in
  (forall s, s <> state -> t' !! s = t !! s) /\
  (exists row',
      t' !! state = Some row' /\
      List.length row' = List.length row /\
      forall i, i <> action -> row' !! i = row !! i) /\
  dom t' = dom t /\
  (t !! next_state = None ->
     t' !! next_state = None /\
     forall current_q, row !! action = Some current_q ->
       fst r = Ok tt /\
       t' !! state
       = Some (<[action := td_target (self w) current_q reward 0]> row)) /\
  snd r = mkWorld (set_q_table t' (self w)) (rng w).
Proof.
  intros Hrow r t t'. subst r t t'.
  destruct (update_q_value_cases w state next_state action reward)
    as [(e & Hrun) | (row0 & cur & mx & Hrow0 & Hcur & Hmx)].
  - rewrite Hrun; cbn [fst snd].
    split; [reflexivity|].
    split; [exists row; repeat split; assumption|].
    split; [reflexivity|].
    split; [|destruct w as [[] ?]; reflexivity].
    intros Hnext. split; [exact Hnext|].
    intros current_q Hcur. exfalso.
    rewrite (update_q_value_ok w state next_state action reward row current_q 0)
      in Hrun; [discriminate | assumption | assumption |].
    rewrite Hnext. reflexivity.
  - rewrite (update_q_value_ok w state next_state action reward row0 cur mx)
      by assumption.
    rewrite Hrow in Hrow0. injection Hrow0 as <-. cbn.
    split; [intros s Hs; apply lookup_insert_ne; congruence|].
    split.
    { eexists. split; [apply lookup_insert_eq|].
      split; [apply length_insert|].
      intros i Hi. apply list_lookup_insert_ne. congruence. }
    split.
    { apply dom_insert_lookup_L. rewrite Hrow. eexists; reflexivity. }
    split; [|reflexivity].
    intros Hnext. split.
    + rewrite lookup_insert_ne; [exact Hnext|]. congruence.
    + intros current_q Hcur'. split; [reflexivity|].
      rewrite lookup_insert_eq. rewrite Hnext in Hmx. cbn in Hmx.
      injection Hmx as <-. congruence.
Qed.

(** What one call of [ai_decision] does, branch by branch. *)
Lemma ai_decision_run (w : World) :
  let b := self w in
  let state := compute_state b in
  let t1 := with_row state (q_table b) in
  let decayed := set_epsilon (epsilon b * (995 # 1000))%Q (set_q_table t1 b) in
  ai_decision w
  = let '(u, g1) := random (rng w) in
    if Qltb u (epsilon b) then
      let '(a, g2) := choice [0; 1]%nat g1 in (Ok a, mkWorld decayed g2)
    else
      match t1 !! state with
      | Some row =>
          match np_argmax row with
          | Some a => (Ok a, mkWorld decayed g1)
          | None => (Raise ValueError, mkWorld (set_q_table t1 b) g1)
          end
      | None => (Raise KeyError, mkWorld (set_q_table t1 b) g1)
      end.
Proof.
  destruct w as [b g]. cbv zeta. cbn [self rng].
  unfold ai_decision, with_row. run.
  destruct (q_table b !! compute_state b) as [row|] eqn:Hrow; cbn;
    destruct (random g) as [u g1]; cbn;
    destruct (Qltb u (epsilon b)); cbn.
  - destruct (choice [0; 1]%nat g1) as [a g2]. cbn. destruct b; reflexivity.
  - change (compute_state (set_q_table (q_table b) b)) with (compute_state b).
    rewrite Hrow. cbn.
    destruct (np_argmax row); cbn; destruct b; reflexivity.
  - destruct (choice [0; 1]%nat g1) as [a g2]. cbn. reflexivity.
  - rewrite lookup_insert_eq. cbn. reflexivity.
Qed.

Lemma greedy_choice (w : World) (q0 q1 : Q) :
  (epsilon (self w) == 0)%Q ->
  q_table (self w) !! compute_state (self w) = Some [q0; q1] ->
  fst (ai_decision w) = Ok (if Qltb q0 q1 then Stand else Hit).
Proof.
  intros Heps Hrow. rewrite ai_decision_run. cbv zeta.
  pose proof (random_range (rng w)) as [Hu _].
  destruct (random (rng w)) as [u g1]. cbn [fst] in Hu.
  assert (Hno : Qltb u (epsilon (self w)) = false).
  { apply Qltb_ge. rewrite Heps. exact Hu. }
  rewrite Hno. unfold with_row. rewrite Hrow, Hrow. cbn.
  destruct (Qltb q0 q1); reflexivity.
Qed.

(** C8: with epsilon at 0 the selection ignores the random draws and is
    greedy: on a row [5, 3] it returns Hit, on [3, 5] Stand, and on two
    equal values Hit; in general Stand exactly when the second value is
    strictly greater. *)
Theorem greedy_at_epsilon_zero (w : World) (q0 q1 : Q) :
  (epsilon (self w) == 0)%Q ->
  q_table (self w) !! compute_state (self w) = Some [q0; q1] ->
  ((q0 == 5)%Q -> (q1 == 3)%Q -> fst (ai_decision w) = Ok Hit) /\
  ((q0 == 3)%Q -> (q1 == 5)%Q -> fst (ai_decision w) = Ok Stand) /\
  ((q0 == q1)%Q -> fst (ai_decision w) = Ok Hit) /\
  ((q1 <= q0)%Q -> fst (ai_decision w) = Ok Hit) /\
  ((q0 < q1)%Q -> fst (ai_decision w) = Ok Stand).
Proof.
  intros Heps Hrow. rewrite (greedy_choice w q0 q1 Heps Hrow).
  assert (Hhit : (q1 <= q0)%Q -> Ok (if Qltb q0 q1 then Stand else Hit) = Ok Hit).
  { intros Hle. apply Qltb_ge in Hle. rewrite Hle. reflexivity. }
  assert (Hstand : (q0 < q1)%Q -> Ok (if Qltb q0 q1 then Stand else Hit) = Ok Stand).
  { intros Hlt. apply Qltb_lt in Hlt. rewrite Hlt. reflexivity. }
  repeat split.
  - intros H0 H1. apply Hhit. rewrite H0, H1. discriminate.
  - intros H0 H1. apply Hstand. rewrite H0, H1. reflexivity.
  - intros Heq. apply Hhit. rewrite Heq. apply Qle_refl.
  - exact Hhit.
  - exact Hstand.
Qed.

(** ** Epsilon *)

Lemma ai_decision_epsilon (w w' : World) (a : nat) :
  ai_decision w = (Ok a, w') ->
  epsilon (self w') = (epsilon (self w) * (995 # 1000))%Q.
Proof.
  rewrite ai_decision_run. cbv zeta.
  destruct (random (rng w)) as [u g1].
  destruct (Qltb u (epsilon (self w))).
  - destruct (choice [0; 1]%nat g1) as [a' g2]. intros [= _ <-]. reflexivity.
  - destruct (with_row _ _ !! _) as [row|]; [|discriminate].
    destruct (np_argmax row); [|discriminate].
    intros [= _ <-]. reflexivity.
Qed.

Lemma dealer_loop_epsilon (fuel : nat) (w : World) :
  epsilon (self (snd (dealer_loop fuel w))) = epsilon (self w).
Proof.
  revert w. induction fuel as [|fuel IH]; intros w; [reflexivity|].
  cbn [dealer_loop]. run.
  destruct (score_hand (dealer_hand (self w)) <? 17); [|reflexivity].
  destruct (deal_returns w) as (c & d & g & ->). cbn. rewrite IH. reflexivity.
Qed.

(** Every call but [ai_decision] leaves epsilon as it is. *)
Lemma other_calls_keep_epsilon (c : Call) (w : World) :
  c <> call_ai_decision ->
  epsilon (self (snd (run_call c w))) = epsilon (self w).
Proof.
  intros Hc. destruct c; cbn [run_call]; try congruence; try reflexivity.
  - destruct (update_q_value_cases w state next_state action reward)
      as [(e & ->) | (row & cur & mx & Hrow & Hcur & Hmx)]; [reflexivity|].
    rewrite (update_q_value_ok w state next_state action reward row cur mx)
      by assumption.
    reflexivity.
  - destruct (deal_initial_cards_returns w)
      as (c1 & c2 & c3 & c4 & d & g & ->). reflexivity.
  - destruct (player_hit_returns w) as (c & d & g & ->). cbn.
    unfold after_hit. cbn.
    destruct (21 <? score_hand (player_hand (self w) ++ [c])); reflexivity.
  - unfold dealer_turn, bind.
    pose proof (dealer_loop_epsilon fuel w) as He.
    destruct (dealer_loop fuel w) as [[[]| |] w1]; cbn in *; exact He.
Qed.

Lemma epsilon_decays_per_decision (cs : list Call) (w w' : World) :
  run_calls cs w = (Ok tt, w') ->
  (epsilon (self w')
   == epsilon (self w) * (995 # 1000) ^ Z.of_nat (decisions_in cs))%Q.
Proof.
  revert w. induction cs as [|c cs IH]; intros w.
  - cbn. intros [= <-]. rewrite Qmult_1_r. reflexivity.
  - cbn [run_calls]. unfold bind at 1.
    destruct (run_call c w) as [[[]|e|] w1] eqn:Hc; try discriminate.
    intros Hrest. rewrite (IH w1 Hrest).
    assert (Hcase : c = call_ai_decision \/ c <> call_ai_decision)
      by (destruct c; (left; reflexivity) || (right; discriminate)).
    destruct Hcase as [->|Hne].
    + cbn [run_call] in Hc. unfold bind at 1 in Hc.
      destruct (ai_decision w) as [[a|e|] w2] eqn:Ha; try discriminate.
      cbn in Hc. injection Hc as <-.
      rewrite (ai_decision_epsilon w w2 a Ha).
      cbn [decisions_in]. rewrite Nat2Z.inj_succ. unfold Z.succ.
      rewrite Qpower_plus by discriminate.
      rewrite Qpower_1_r. ring.
    + pose proof (other_calls_keep_epsilon c w Hne) as He.
      rewrite Hc in He. cbn in He. rewrite He.
      destruct c; try congruence; reflexivity.
Qed.

(** ** Calls that always return *)

Lemma with_row_ok (s : State) (t : gmap State (list Q)) :
  rows_ok t ->
  rows_ok (with_row s t) /\ exists q0 q1, with_row s t !! s = Some [q0; q1].
Proof.
  intros Hok. unfold with_row. destruct (t !! s) as [row|] eqn:Hrow.
  - split; [exact Hok|]. pose proof (Hok s row Hrow) as Hlen.
    destruct row as [|q0 [|q1 [|]]]; try discriminate. eauto.
  - split; [|rewrite lookup_insert_eq; eauto].
    intros s' row'. rewrite lookup_insert. case_decide.
    + intros [= <-]. reflexivity.
    + apply Hok.
Qed.

Lemma ai_decision_returns (w : World) :
  rows_ok (q_table (self w)) ->
  exists a w',
    ai_decision w = (Ok a, w') /\ (a = Hit \/ a = Stand) /\
    rows_ok (q_table (self w')).
Proof.
  intros Hok. rewrite ai_decision_run. cbv zeta.
  destruct (with_row_ok (compute_state (self w)) _ Hok) as (Hok' & q0 & q1 & Hrow).
  destruct (random (rng w)) as [u g1].
  destruct (Qltb u (epsilon (self w))).
  - pose proof (choice_In [0; 1]%nat g1) as Hin.
    destruct (choice [0; 1]%nat g1) as [a g2]. cbn in Hin.
    exists a. eexists. split; [reflexivity|]. split; [|exact Hok'].
    destruct Hin as [<-|[<-|[]]]; [discriminate | left | right]; reflexivity.
  - rewrite Hrow. cbn. eexists. eexists. split; [reflexivity|].
    split; [|exact Hok'].
    destruct (Qltb q0 q1); [right | left]; reflexivity.
Qed.

Lemma plain_call_returns (c : Call) (w : World) :
  rows_ok (q_table (self w)) -> plain_call c ->
  exists w', run_call c w = (Ok tt, w') /\ rows_ok (q_table (self w')).
Proof.
  intros Hok Hc. destruct c; cbn [run_call plain_call] in *.
  - exists w. split; [reflexivity | exact Hok].
  - contradiction.
  - destruct (ai_decision_returns w Hok) as (a & w' & Hrun & _ & Hok').
    exists w'. unfold bind. rewrite Hrun. split; [reflexivity | exact Hok'].
  - destruct (deal_initial_cards_returns w)
      as (c1 & c2 & c3 & c4 & d & g & ->).
    eexists. split; [reflexivity | exact Hok].
  - destruct (player_hit_returns w) as (c & d & g & ->).
    eexists. split; [reflexivity|]. unfold after_hit. cbn.
    destruct (21 <? score_hand (player_hand (self w) ++ [c])); exact Hok.
  - replace fuel with (18 + (fuel - 18))%nat by lia.
    destruct (dealer_turn_returns w (fuel - 18)) as (extra & d & g & -> & _).
    eexists. split; [reflexivity | exact Hok].
  - exists w. split; [reflexivity | exact Hok].
  - eexists. split; [reflexivity | exact Hok].
Qed.

Lemma plain_calls_return (cs : list Call) (w : World) :
  rows_ok (q_table (self w)) -> Forall plain_call cs ->
  exists w', run_calls cs w = (Ok tt, w').
Proof.
  revert w. induction cs as [|c cs IH]; intros w Hok Hcs.
  - exists w. reflexivity.
  - inversion Hcs as [|? ? Hc Hcs']; subst.
    destruct (plain_call_returns c w Hok Hc) as (w1 & Hrun & Hok1).
    destruct (IH w1 Hok1 Hcs') as (w' & Hrest).
    exists w'. cbn [run_calls]. unfold bind. rewrite Hrun. exact Hrest.
Qed.

(** C7: starting from epsilon 1, after a sequence of calls on the agent
    epsilon is 0.995 to the number of [ai_decision] calls in it, in exact
    arithmetic, whatever the random draws and the actions were: every
    selection multiplies epsilon by 0.995 and no other call changes it.
    Sequences of calls without the update return from every table whose
    rows are pairs. *)
Theorem epsilon_after_calls (cs : list Call) (w : World) :
  (epsilon (self w) == 1)%Q ->
  (forall w', run_calls cs w = (Ok tt, w') ->
     (epsilon (self w') == (995 # 1000) ^ Z.of_nat (decisions_in cs))%Q) /\
  (rows_ok (q_table (self w)) -> Forall plain_call cs ->
     exists w', run_calls cs w = (Ok tt, w')) /\
  (forall a w', ai_decision w = (Ok a, w') ->
     epsilon (self w') = (epsilon (self w) * (995 # 1000))%Q).
Proof.
  intros Hone. split; [|split].
  - intros w' Hrun. rewrite (epsilon_decays_per_decision cs w w' Hrun).
    rewrite Hone. apply Qmult_1_l.
  - apply plain_calls_return.
  - intros a w'. apply ai_decision_epsilon.
Qed.
(** ** The round of the driver *)

(** A round that returns makes one update, after its decision loop: the
    prior state it passes is the state computed right after the initial
    deal, the action is the last one the loop bound, the next state and
    the reward are those of the world the loop left. *)
Lemma play_round_update (fuel : nat) (act r : option nat) (w w' : World) :
  play_round fuel act w = (Ok r, w') ->
  exists wd wl wu a,
    deal_initial_cards w = (Ok tt, wd) /\
    decision_loop fuel act wd = (Ok (Some a), wl) /\
    r = Some a /\
    update_q_value (compute_state (self wd)) a (fst (get_winner (self wl)))
      (compute_state (self wl)) wl = (Ok tt, wu) /\
    w' = mkWorld (set_game_over false (self wu)) (rng wu).
Proof.
  unfold play_round. unfold bind at 1.
  destruct (deal_initial_cards w) as [[[]|e|] wd] eqn:Hdeal; try discriminate.
  unfold bind at 1, gets at 1. unfold bind at 1.
  destruct (decision_loop fuel act wd) as [[o|e|] wl] eqn:Hloop;
    try discriminate.
  unfold bind at 1, gets at 1. unfold bind at 1, gets at 1.
  unfold bind at 1.
  destruct o as [a|]; cbn [or_raise]; [|discriminate].
  unfold ret at 1. unfold bind at 1.
  destruct (update_q_value _ _ _ _ wl) as [[[]|e|] wu] eqn:Hup;
    try discriminate.
  unfold bind, modify, ret. intros [= <- <-].
  exists wd, wl, wu, a. repeat split; assumption.
Qed.

End Facts.

(** ** Runs on the cycling generator *)

(** C1: the round played from [new_game] on the cycling generator. The
    player is dealt 2 and 3 against a 4, hits (a 6, for 11) and then
    stands; the dealer busts and the reward is +2. The state before the
    final action, Stand, is (11, 4, no Ace), yet the one update of the
    round is made at the state after the initial deal, (5, 4, no Ace): its
    Stand entry becomes 1 and the row of (11, 4, no Ace) stays [0, 0]. *)
Theorem round_credits_state_after_deal :
  Blackjack_init (1 # 2) (9 # 10) 1 0%nat = Ok new_game /\
  fst (deal_initial_cards new_game) = Ok tt /\
  compute_state (self dealt_game) = (5, Some R4, false) /\
  fst (ai_decision dealt_game) = Ok Hit /\
  fst (player_hit first_choice) = Ok tt /\
  game_over (self after_first_hit) = false /\
  compute_state (self after_first_hit) = (11, Some R4, false) /\
  fst (ai_decision after_first_hit) = Ok Stand /\
  fst (dealer_turn 18 second_choice) = Ok tt /\
  game_over (self stood_game) = true /\
  compute_state (self stood_game) = (11, Some R4, false) /\
  get_winner (self stood_game) = (2, "Player wins!"%string) /\
  fst (play_round 30 None new_game) = Ok (Some Stand) /\
  q_table (self second_choice)
  = {[ (5, Some R4, false) := [0%Q; 0%Q]; (11, Some R4, false) := [0%Q; 0%Q] ]} /\
  q_table (self round_end) !! (11, Some R4, false) = Some [0%Q; 0%Q] /\
  exists q,
    q_table (self round_end) !! (5, Some R4, false) = Some [0%Q; q] /\
    (q == 1)%Q /\
    q = td_target (self stood_game) 0 2 0.
Proof.
  repeat (split; [vm_compute; reflexivity|]).
  eexists. split; [vm_compute; reflexivity|].
  split; vm_compute; reflexivity.
Qed.

(** C2, the claim as stated fails: [stood_game] is Terminal, and
    [player_hit] on it raises nothing and deals the player a fourth card;
    [dealt_game] is InProgress, and [get_winner] on it returns an
    outcome. *)
Lemma hit_after_terminal_executes :
  phase_of (self stood_game) = Terminal /\
  ~ (exists e, fst (player_hit stood_game) = Raise e) /\
  fst (player_hit stood_game) = Ok tt /\
  player_hand (self stood_game)
  = [mkCard Hearts R2; mkCard Hearts R3; mkCard Hearts R6] /\
  player_hand (self (snd (player_hit stood_game)))
  = [mkCard Hearts R2; mkCard Hearts R3; mkCard Hearts R6; mkCard Hearts R9] /\
  phase_of (self dealt_game) = InProgress /\
  get_winner (self dealt_game) = (-1, "Dealer wins."%string).
Proof.
  split; [vm_compute; reflexivity|].
  split; [intros [e He]; vm_compute in He; discriminate|].
  repeat split; vm_compute; reflexivity.
Qed.

(** C3, the claim as stated fails: alpha 2, gamma -1 and epsilon 5 are
    outside the ranges, and the constructor returns an agent that holds
    them. *)
Lemma invalid_configuration_accepted :
  ~ valid_configuration 2 (-1) 5 /\
  ~ (exists e, Blackjack_init 2 (-1) 5 0%nat = Raise e) /\
  exists w,
    Blackjack_init 2 (-1) 5 0%nat = Ok w /\
    alpha (self w) = 2%Q /\ gamma (self w) = (-1)%Q /\ epsilon (self w) = 5%Q.
Proof.
  split; [|split].
  - intros [[_ Ha] _]. vm_compute in Ha. apply Ha. reflexivity.
  - intros [e He]. vm_compute in He. discriminate.
  - eexists. split; [vm_compute; reflexivity|]. repeat split.
Qed.

(** C4, the claim as stated fails: the dealer of [soft_dealer] holds an
    Ace and a 5, scoring 16, and is dealt a 6; the hand then scores 12,
    the Ace now counting 1, so the card did not add to the score. *)
Lemma dealt_card_lowers_dealer_score :
  exists c w',
    deal soft_dealer = (Ok c, w') /\
    c = mkCard Clubs R6 /\
    score_hand (dealer_hand (self soft_dealer)) = 16 /\
    score_hand (dealer_hand (self soft_dealer) ++ [c]) = 12 /\
    ~ (score_hand (dealer_hand (self soft_dealer)) + 1
       <= score_hand (dealer_hand (self soft_dealer) ++ [c])).
Proof.
  eexists. eexists. split; [vm_compute; reflexivity|].
  repeat split. vm_compute. intros Hle. apply Hle. reflexivity.
Qed.

(** C8 at a concrete agent: epsilon 0 and the rows [5, 3], [3, 5] and
    [7/2, 7/2] for the current state. *)
Lemma greedy_at_epsilon_zero_witness :
  fst (ai_decision (greedy_game [5; 3]%Q)) = Ok Hit /\
  fst (ai_decision (greedy_game [3; 5]%Q)) = Ok Stand /\
  fst (ai_decision (greedy_game [7 # 2; 7 # 2]%Q)) = Ok Hit.
Proof.
  split; [|split].
  - destruct (greedy_at_epsilon_zero (greedy_game [5; 3]%Q) 5 3)
      as (Hhit & _); [reflexivity | vm_compute; reflexivity |].
    apply Hhit; reflexivity.
  - destruct (greedy_at_epsilon_zero (greedy_game [3; 5]%Q) 3 5)
      as (_ & Hstand & _); [reflexivity | vm_compute; reflexivity |].
    apply Hstand; reflexivity.
  - destruct (greedy_at_epsilon_zero (greedy_game [7 # 2; 7 # 2]%Q)
                (7 # 2) (7 # 2))
      as (_ & _ & Htie & _); [reflexivity | vm_compute; reflexivity |].
    apply Htie; reflexivity.
Defined.

(** C9 at a concrete table: one row, for (5, 4, no Ace); the next state
    (11, 4, no Ace) is absent and stays absent. *)
Lemma update_touches_one_entry_witness :
  let w := greedy_game [5; 3]%Q in
  let r := update_q_value (5, Some R4, false) Stand 2 (11, Some R4, false) w in
  q_table (self (snd r)) !! (11, Some R4, false) = None /\
  dom (q_table (self (snd r))) = dom (q_table (self w)) /\
  fst r = Ok tt.
Proof.
  intros w r.
  destruct (update_touches_one_entry w (5, Some R4, false) (11, Some R4, false)
              Stand 2 [5; 3]%Q)
    as (_ & _ & Hdom & Hnext & _); [vm_compute; reflexivity|].
  destruct Hnext as [Habsent Hval]; [vm_compute; reflexivity|].
  destruct (Hval 3%Q) as [Hok _]; [reflexivity|].
  repeat split; assumption.
Defined.

(** C7 at the round played from [new_game]: two selections, epsilon
    0.995 squared. *)
Lemma epsilon_after_calls_witness :
  (epsilon (self (snd (run_calls round_calls new_game))) == (995 # 1000) ^ 2)%Q.
Proof.
  apply (proj1 (epsilon_after_calls round_calls new_game (Qeq_refl 1))).
  vm_compute. reflexivity.
Defined.

(** ** More on the hand evaluator *)

Lemma aces_le_hard (hand : list Card) : Z.of_nat (aces_in hand) <= hard_total hand.
Proof.
  induction hand as [|c hand IH]; [cbn; lia|].
  rewrite aces_in_cons, hard_total_cons.
  pose proof (hard_le_points c). destruct (is_ace c); lia.
Qed.

Lemma soften_closed (k : nat) (h : Z) :
  Z.of_nat k <= h ->
  soften (h + 10 * Z.of_nat k) k
  = if (0 <? Z.of_nat k) && (h + 10 <=? 21) then h + 10 else h.
Proof.
  induction k as [|k IH]; intros Hk.
  - change (Z.of_nat 0) with 0. cbn [soften]. rewrite Z.ltb_irrefl. cbn [andb]. lia.
  - cbn [soften]. rewrite Nat2Z.inj_succ.
    replace (h + 10 * Z.succ (Z.of_nat k) - 10) with (h + 10 * Z.of_nat k) by lia.
    destruct (Z.ltb_spec 21 (h + 10 * Z.succ (Z.of_nat k))) as [Hgt|Hle].
    + rewrite IH by lia.
      destruct (Z.ltb_spec 0 (Z.of_nat k)), (Z.ltb_spec 0 (Z.succ (Z.of_nat k)));
        destruct (Z.leb_spec (h + 10) 21); cbn; lia.
    + destruct (Z.ltb_spec 0 (Z.succ (Z.of_nat k)));
        destruct (Z.leb_spec (h + 10) 21); cbn; lia.
Qed.

Lemma aces_in_existsb (hand : list Card) :
  (0 <? Z.of_nat (aces_in hand)) = existsb is_ace hand.
Proof.
  induction hand as [|c hand IH]; [reflexivity|].
  rewrite aces_in_cons. cbn [existsb]. destruct (is_ace c); cbn [orb].
  - apply Z.ltb_lt. lia.
  - exact IH.
Qed.

Lemma score_closed (hand : list Card) :
  score_hand hand
  = if existsb is_ace hand && (hard_total hand + 10 <=? 21)
    then hard_total hand + 10 else hard_total hand.
Proof.
  rewrite score_hand_unfold, points_hard, <- aces_in_existsb.
  apply soften_closed, aces_le_hard.
Qed.

(** X1: the score of a hand is its hard total (every Ace as 1), plus 10
    when the hand holds an Ace and that does not take it over 21: at most
    one Ace ever counts 11. *)
Theorem score_hand_closed_form (hand : list Card) :
  score_hand hand
  = if existsb is_ace hand && (hard_total hand + 10 <=? 21)
    then hard_total hand + 10 else hard_total hand.
Proof. apply score_closed. Qed.

(** X2: the score is the best total the Aces allow. It is one of the
    totals got by counting some of the Aces as 11, no such total that
    stays within 21 is above it, and the hand busts only when even
    counting every Ace as 1 is over 21. *)
Theorem score_hand_optimal (hand : list Card) :
  (exists j, (j <= aces_in hand)%nat /\
             score_hand hand = hard_total hand + 10 * Z.of_nat j) /\
  (forall j, (j <= aces_in hand)%nat ->
             hard_total hand + 10 * Z.of_nat j <= 21 ->
             hard_total hand + 10 * Z.of_nat j <= score_hand hand) /\
  (21 < score_hand hand <-> 21 < hard_total hand).
Proof.
  rewrite score_closed, <- aces_in_existsb.
  pose proof (aces_le_hard hand) as Hk.
  destruct (Z.ltb_spec 0 (Z.of_nat (aces_in hand))) as [Hpos|Hzero];
    destruct (Z.leb_spec (hard_total hand + 10) 21) as [Hfit|Hover]; cbn [andb].
  - split; [exists 1%nat; split; lia|]. split; [intros j Hj Hle; lia | lia].
  - split; [exists 0%nat; split; lia|]. split; [intros j Hj Hle; lia | lia].
  - split; [exists 0%nat; split; lia|]. split; [intros j Hj Hle; lia | lia].
  - split; [exists 0%nat; split; lia|]. split; [intros j Hj Hle; lia | lia].
Qed.

Lemma points_total_perm (h1 h2 : list Card) :
  Permutation h1 h2 -> points_total h1 = points_total h2.
Proof.
  induction 1 as [|c l l' _ IH|c c' l|l l' l'' _ IH1 _ IH2].
  - reflexivity.
  - rewrite !points_total_cons, IH. reflexivity.
  - rewrite !points_total_cons. lia.
  - congruence.
Qed.

Lemma aces_in_perm (h1 h2 : list Card) :
  Permutation h1 h2 -> aces_in h1 = aces_in h2.
Proof.
  induction 1 as [|c l l' _ IH|c c' l|l l' l'' _ IH1 _ IH2].
  - reflexivity.
  - rewrite !aces_in_cons, IH. reflexivity.
  - rewrite !aces_in_cons. destruct (is_ace c), (is_ace c'); reflexivity.
  - congruence.
Qed.

(** X3: the score does not depend on the order of the cards: two hands
    that hold the same cards score the same. *)
Theorem score_hand_order (h1 h2 : list Card) :
  Permutation h1 h2 -> score_hand h1 = score_hand h2.
Proof.
  intros Hp. rewrite !score_hand_unfold.
  rewrite (points_total_perm h1 h2 Hp), (aces_in_perm h1 h2 Hp). reflexivity.
Qed.

(** ** More on the deck *)

Lemma fresh_cards_NoDup : NoDup fresh_cards.
Proof. apply (bool_decide_unpack _). vm_compute. exact I. Qed.

Lemma pop_Some {A : Type} (l r : list A) (x : A) :
  pop l = Some (x, r) -> l = r ++ [x].
Proof.
  unfold pop. destruct (rev l) as [|y t] eqn:E; [discriminate|].
  intros [= <- <-]. rewrite <- (rev_involutive l), E. reflexivity.
Qed.

Section Deck_facts.

Context {G : Type} `{Random G}.

#[local] Abbreviation World := (@World G).

#[local] Transparent deal.

Lemma deal_top (w : World) (rest : list Card) (c : Card) :
  cards (deck (self w)) = rest ++ [c] ->
  deal w = (Ok c, mkWorld (set_deck (mkDeck rest) (self w)) (rng w)).
Proof.
  intros Hd. unfold deal, bind, gets, modify, draw, ret, or_raise. cbn.
  rewrite Hd, length_app. cbn. rewrite Nat.add_1_r. cbn.
  rewrite Hd, pop_snoc. reflexivity.
Qed.

(** The two ways of [deal]: off the top of the deck, or off a deck just
    refilled and shuffled. *)
Lemma deal_cases (w : World) :
  exists c rest g,
    deal w = (Ok c, mkWorld (set_deck (mkDeck rest) (self w)) g) /\
    ((cards (deck (self w)) = rest ++ [c] /\ g = rng w) \/
     (cards (deck (self w)) = [] /\
      shuffle fresh_cards (rng w) = (rest ++ [c], g))).
Proof.
  destruct (cards (deck (self w))) as [|c0 l] eqn:Hd.
  - pose proof (shuffle_perm fresh_cards (rng w)) as Hp.
    destruct (shuffle fresh_cards (rng w)) as [cs g] eqn:Hs. cbn [fst] in Hp.
    assert (Hne : cs <> []).
    { intros ->. apply Permutation_nil in Hp. discriminate. }
    destruct (exists_last Hne) as (rest & c & ->).
    exists c, rest, g. split; [|right; split; reflexivity].
    unfold deal, bind, gets, modify, draw, ret, or_raise, Deck_init.
    cbn -[fresh_cards]. rewrite Hd. cbn -[fresh_cards]. rewrite Hs.
    cbn -[fresh_cards]. rewrite pop_snoc. reflexivity.
  - assert (Hne : c0 :: l <> []) by discriminate.
    destruct (exists_last Hne) as (rest & c & Heq).
    exists c, rest, (rng w). rewrite Heq in Hd.
    split; [apply deal_top; exact Hd | left; split; [exact Heq | reflexivity]].
Qed.

(** X4: from a deck that holds cards, [deal] returns the last card of the
    list and leaves the others in order; nothing is shuffled and the rest
    of the game is as it was. *)
Theorem deal_takes_last (w : World) (rest : list Card) (c : Card) :
  cards (deck (self w)) = rest ++ [c] ->
  deal w = (Ok c, mkWorld (set_deck (mkDeck rest) (self w)) (rng w)).
Proof. apply deal_top. Qed.

(** X5: from an empty deck, [deal] shuffles a full deck and returns its
    last card: 51 cards are left, and with the dealt card they are the 52
    cards, each once. *)
Theorem deal_refills_empty_deck (w : World) :
  cards (deck (self w)) = [] ->
  exists c rest g,
    deal w = (Ok c, mkWorld (set_deck (mkDeck rest) (self w)) g) /\
    shuffle fresh_cards (rng w) = (rest ++ [c], g) /\
    List.length rest = 51%nat /\
    Permutation (c :: rest) fresh_cards /\
    NoDup (c :: rest).
Proof.
  intros Hd. destruct (deal_cases w) as (c & rest & g & Hrun & Hcase).
  destruct Hcase as [[Htop _] | [_ Hs]].
  { rewrite Hd in Htop. destruct rest; discriminate. }
  exists c, rest, g. split; [exact Hrun|]. split; [exact Hs|].
  pose proof (shuffle_perm fresh_cards (rng w)) as Hp. rewrite Hs in Hp.
  cbn [fst] in Hp.
  assert (Hp' : Permutation (c :: rest) fresh_cards).
  { rewrite <- Hp. apply Permutation_cons_append. }
  split; [|split; [exact Hp'|]].
  - apply Permutation_length in Hp'. cbn in Hp'. lia.
  - rewrite Hp'. apply fresh_cards_NoDup.
Qed.

(** X6: a deck without repeated cards stays so through [deal], refill
    included, and the card dealt is no longer in it. *)
Theorem deal_keeps_deck_distinct (w w' : World) (c : Card) :
  NoDup (cards (deck (self w))) ->
  deal w = (Ok c, w') ->
  NoDup (cards (deck (self w'))) /\ ~ In c (cards (deck (self w'))).
Proof.
  intros Hnd Hrun.
  destruct (deal_cases w) as (c0 & rest & g & Hrun0 & Hcase).
  rewrite Hrun0 in Hrun. injection Hrun as <- <-. cbn.
  assert (Hall : NoDup (rest ++ [c0])).
  { destruct Hcase as [[Htop _] | [_ Hs]].
    - rewrite <- Htop. exact Hnd.
    - pose proof (shuffle_perm fresh_cards (rng w)) as Hp. rewrite Hs in Hp.
      cbn [fst] in Hp. rewrite Hp. apply fresh_cards_NoDup. }
  apply list.NoDup_app in Hall as (Hrest & Hsep & _).
  split; [exact Hrest|].
  intros Hin. apply (Hsep c0); [apply list_elem_of_In; exact Hin | left].
Qed.

(** X7: with at least four cards in the deck, [deal_initial_cards] takes
    the last four: the last two, in dealing order, are the player's hand
    and the two before them the dealer's. The earlier hands are dropped,
    nothing is shuffled, and [game_over], the Q-table and epsilon are as
    they were. *)
Theorem deal_initial_cards_top_four (w : World) (rest : list Card)
    (c1 c2 c3 c4 : Card) :
  cards (deck (self w)) = rest ++ [c4; c3; c2; c1] ->
  deal_initial_cards w
  = (Ok tt,
     mkWorld (mkBlackjack (mkDeck rest) [c1; c2] [c3; c4]
                (game_over (self w)) (alpha (self w)) (gamma (self w))
                (epsilon (self w)) (q_table (self w)))
       (rng w)).
Proof.
  intros Hd. unfold deal_initial_cards, bind, modify.
  rewrite (deal_top w (rest ++ [c4; c3; c2]) c1)
    by (rewrite Hd, <- !app_assoc; reflexivity).
  cbn [self rng].
  erewrite (deal_top _ (rest ++ [c4; c3]) c2)
    by (cbn; rewrite <- !app_assoc; reflexivity).
  cbn [self rng].
  erewrite (deal_top _ (rest ++ [c4]) c3)
    by (cbn; rewrite <- !app_assoc; reflexivity).
  cbn [self rng].
  erewrite (deal_top _ rest c4) by (cbn; reflexivity).
  reflexivity.
Qed.
End Deck_facts.

(** ** More on the game operations *)

Lemma hard_points_range (c : Card) : 1 <= hard_points c <= 10.
Proof. destruct c as [su []]; unfold hard_points, card_points; cbn; lia. Qed.

Lemma bust_iff_hard (hand : list Card) :
  21 < score_hand hand <-> 21 < hard_total hand.
Proof.
  rewrite score_closed.
  destruct (existsb is_ace hand);
    destruct (Z.leb_spec (hard_total hand + 10) 21); cbn [andb]; lia.
Qed.

Lemma score_app_bound (hand : list Card) (c : Card) :
  score_hand (hand ++ [c]) <= Z.max (score_hand hand + 10) 21.
Proof.
  rewrite !score_closed, hard_total_app, existsb_app. cbn [existsb].
  rewrite orb_false_r.
  pose proof (hard_points_range c) as Hc. unfold hard_points in *.
  destruct (existsb is_ace hand); destruct (is_ace c); cbn [orb andb];
    repeat match goal with
           | |- context [?a <=? ?b] => destruct (Z.leb_spec a b)
           end; lia.
Qed.

Section Game_facts.

Context {G : Type} `{Random G}.

#[local] Abbreviation World := (@World G).

(** X8: [player_hit] always returns, with one card added at the end of
    the player's hand. It raises [game_over] exactly when the new hand
    busts and never lowers it: a hit on a score of 11 or less leaves the
    flag as it was, and a hit on a hard total of 21 or more sets it. *)
Theorem player_hit_bust (w : World) :
  exists c w',
    player_hit w = (Ok tt, w') /\
    player_hand (self w') = player_hand (self w) ++ [c] /\
    game_over (self w')
    = game_over (self w) || (21 <? score_hand (player_hand (self w'))) /\
    (score_hand (player_hand (self w)) <= 11 ->
     game_over (self w') = game_over (self w)) /\
    (21 <= hard_total (player_hand (self w)) -> game_over (self w') = true).
Proof.
  destruct (player_hit_returns w) as (c & d & g & Hrun).
  exists c. eexists. split; [exact Hrun|]. unfold after_hit. cbn.
  pose proof (bust_iff_hard (player_hand (self w) ++ [c])) as Hb.
  rewrite hard_total_app in Hb.
  pose proof (hard_points_range c) as Hc.
  pose proof (hard_total_le_score (player_hand (self w))) as Hh.
  destruct (21 <? score_hand (player_hand (self w) ++ [c])) eqn:E; cbn;
    rewrite ?E.
  - apply Z.ltb_lt in E.
    split; [reflexivity|]. split; [rewrite orb_true_r; reflexivity|].
    split; [intros Hlow; exfalso; lia | reflexivity].
  - apply Z.ltb_ge in E.
    split; [reflexivity|]. split; [rewrite orb_false_r; reflexivity|].
    split; [reflexivity | intros Hhigh; exfalso; lia].
Qed.

(** The dealer's loop with the trace of its draws: each card is drawn at
    a score below 17. *)
Lemma dealer_loop_trace (fuel : nat) (w : World) :
  Z.max 0 (17 - hard_total (dealer_hand (self w))) < Z.of_nat fuel ->
  exists extra d g,
    dealer_loop fuel w
    = (Ok tt, mkWorld (set_dealer_hand (dealer_hand (self w) ++ extra)
                         (set_deck d (self w))) g) /\
    17 <= score_hand (dealer_hand (self w) ++ extra) /\
    (forall n, (n < List.length extra)%nat ->
       score_hand (dealer_hand (self w) ++ take n extra) < 17) /\
    (extra = [] -> d = deck (self w) /\ g = rng w).
Proof.
  revert w. induction fuel as [|fuel IH]; intros w Hfuel.
  - exfalso. lia.
  - cbn [dealer_loop]. unfold bind at 1, gets at 1.
    pose proof (hard_total_le_score (dealer_hand (self w))) as Hhard.
    destruct (Z.ltb_spec (score_hand (dealer_hand (self w))) 17) as [Hlt|Hge].
    + unfold bind at 1.
      destruct (deal_returns w) as (c & d & g & ->).
      unfold bind at 1, gets at 1. unfold bind at 1, modify at 1.
      cbn [self rng].
      set (w1 := mkWorld (set_dealer_hand _ _) g).
      destruct (IH w1) as (extra & d' & g' & Hrun & Hscore & Htrace & _).
      { subst w1. cbn. rewrite hard_total_app.
        pose proof (hard_le_points c). lia. }
      rewrite Hrun. subst w1. cbn in *.
      exists (c :: extra), d', g'.
      rewrite <- app_assoc in *. cbn in *.
      split; [reflexivity|]. split; [exact Hscore|].
      split; [|discriminate].
      intros [|n] Hn; cbn.
      * rewrite app_nil_r. exact Hlt.
      * specialize (Htrace n ltac:(lia)).
        rewrite <- app_assoc in Htrace. exact Htrace.
    + exists [], (deck (self w)), (rng w). rewrite app_nil_r.
      split; [destruct w as [[] ?]; reflexivity|].
      split; [exact Hge|]. split; [cbn; lia | auto].
Qed.

Lemma dealer_turn_run (w : World) (k : nat) :
  exists extra d g,
    dealer_turn (18 + k) w
    = (Ok tt, mkWorld (set_game_over true
                         (set_dealer_hand (dealer_hand (self w) ++ extra)
                            (set_deck d (self w)))) g) /\
    17 <= score_hand (dealer_hand (self w) ++ extra) /\
    (forall n, (n < List.length extra)%nat ->
       score_hand (dealer_hand (self w) ++ take n extra) < 17) /\
    (extra = [] -> d = deck (self w) /\ g = rng w).
Proof.
  destruct (dealer_loop_trace (18 + k) w)
    as (extra & d & g & Hrun & Hscore & Htrace & Hnil).
  { pose proof (hard_total_nonneg (dealer_hand (self w))). lia. }
  exists extra, d, g. unfold dealer_turn, bind. rewrite Hrun.
  repeat split; try assumption; apply Hnil; assumption.
Qed.

Lemma dealer_final_le_26 (hand extra : list Card) :
  extra <> [] ->
  (forall n, (n < List.length extra)%nat ->
     score_hand (hand ++ take n extra) < 17) ->
  score_hand (hand ++ extra) <= 26.
Proof.
  intros Hne Htrace. destruct (exists_last Hne) as (front & c & ->).
  specialize (Htrace (List.length front)).
  rewrite length_app, take_app_length in Htrace. cbn in Htrace.
  specialize (Htrace ltac:(lia)).
  rewrite app_assoc.
  pose proof (score_app_bound (hand ++ front) c). lia.
Qed.

(** X9: the dealer's turn draws only while the dealer's score is below
    17: every card is drawn at a score under 17 and is added at the end
    of the dealer's hand, so a dealer who draws ends between 17 and 26,
    and a dealer already at 17 or more draws nothing and leaves the deck
    and the generator alone. The player's hand, the Q-table and epsilon
    are not touched. *)
Theorem dealer_turn_draws_below_17 (w : World) (k : nat) :
  exists extra d g,
    dealer_turn (18 + k) w
    = (Ok tt, mkWorld (mkBlackjack d (player_hand (self w))
                         (dealer_hand (self w) ++ extra) true
                         (alpha (self w)) (gamma (self w))
                         (epsilon (self w)) (q_table (self w))) g) /\
    (forall n, (n < List.length extra)%nat ->
       score_hand (dealer_hand (self w) ++ take n extra) < 17) /\
    17 <= score_hand (dealer_hand (self w) ++ extra) /\
    (extra <> [] -> score_hand (dealer_hand (self w) ++ extra) <= 26) /\
    (17 <= score_hand (dealer_hand (self w)) ->
     extra = [] /\ d = deck (self w) /\ g = rng w).
Proof.
  destruct (dealer_turn_run w k)
    as (extra & d & g & Hrun & Hscore & Htrace & Hnil).
  exists extra, d, g. split; [exact Hrun|]. split; [exact Htrace|].
  split; [exact Hscore|]. split.
  - intros Hne. apply dealer_final_le_26; assumption.
  - intros Hge. assert (Hextra : extra = []).
    { destruct extra as [|c extra]; [reflexivity|].
      specialize (Htrace 0%nat ltac:(cbn; lia)). cbn in Htrace.
      rewrite app_nil_r in Htrace. lia. }
    split; [exact Hextra | apply Hnil; exact Hextra].
Qed.

(** X10: a hit that ends the round pays -10. After [player_hit] from a
    round still open, [get_winner] returns the bust outcome exactly when
    the hit raised [game_over], whatever the dealer holds. *)
Theorem bust_hit_pays_minus_10 (w w' : World) :
  game_over (self w) = false ->
  player_hit w = (Ok tt, w') ->
  (game_over (self w') = true ->
   get_winner (self w') = (-10, "Player busts! Dealer wins."%string)) /\
  (game_over (self w') = false -> fst (get_winner (self w')) <> -10) /\
  dealer_hand (self w') = dealer_hand (self w).
Proof.
  intros Hopen Hrun.
  destruct (player_hit_returns w) as (c & d & g & Hrun').
  rewrite Hrun' in Hrun. injection Hrun as <-.
  unfold after_hit, get_winner, winner_of. cbn.
  destruct (21 <? score_hand (player_hand (self w) ++ [c])) eqn:E; cbn;
    rewrite ?E, ?Hopen.
  - repeat split; congruence.
  - split; [discriminate|]. split; [|reflexivity]. intros _.
    repeat match goal with
           | |- context [if ?b then _ else _] => destruct b
           end; cbn; discriminate.
Qed.

(** X11: a player who stands on 21 or less is never paid -10. After the
    dealer's turn the reward is +2 when the dealer busts or ends below
    the player, -1 when the dealer ends above, 0 on equal scores; a
    player who stands below 17 wins only when the dealer busts and never
    ties. *)
Theorem stand_outcome (w : World) (k : nat) :
  score_hand (player_hand (self w)) <= 21 ->
  exists w',
    dealer_turn (18 + k) w = (Ok tt, w') /\
    player_hand (self w') = player_hand (self w) /\
    let p := score_hand (player_hand (self w')) in
    let d := score_hand (dealer_hand (self w')) in
    17 <= d /\
    fst (get_winner (self w'))
    = (if (21 <? d) || (d <? p) then 2 else if p <? d then -1 else 0) /\
    (p < 17 -> fst (get_winner (self w')) = if 21 <? d then 2 else -1).
Proof.
  intros Hfit.
  destruct (dealer_turn_run w k) as (extra & d & g & Hrun & Hscore & _).
  eexists. split; [exact Hrun|]. cbn. split; [reflexivity|].
  split; [exact Hscore|].
  unfold get_winner, winner_of. cbn.
  destruct (Z.ltb_spec 21 (score_hand (player_hand (self w)))) as [Hb|_];
    [exfalso; lia|].
  split.
  - repeat match goal with
           | |- context [if ?b then _ else _] => destruct b
           end; reflexivity.
  - intros Hlow.
    repeat match goal with
           | |- context [?a <? ?b] => destruct (Z.ltb_spec a b)
           end; cbn; try reflexivity; exfalso; lia.
Qed.
End Game_facts.

(** ** More on the agent *)

Lemma rows_ok_max (t : gmap State (list Q)) (s : State) :
  rows_ok t -> exists mx, py_max (default [0%Q; 0%Q] (t !! s)) = Some mx.
Proof.
  intros Hok. destruct (t !! s) as [row|] eqn:Hrow; cbn; [|eauto].
  pose proof (Hok s row Hrow) as Hlen.
  destruct row as [|q0 [|q1 [|]]]; try discriminate. cbn. eauto.
Qed.

Lemma td_target_gap (b : Blackjack) (cur mx : Q) (reward : Z) :
  (td_target b cur reward mx - td_goal b reward mx
   == (1 - alpha b) * (cur - td_goal b reward mx))%Q.
Proof. unfold td_target, td_goal. ring. Qed.

Section Agent_facts.

Context {G : Type} `{Random G}.

#[local] Abbreviation World := (@World G).

(** X12: an update for a state that is not in the table changes nothing
    and raises: [KeyError] for the actions 0 and 1, [IndexError] for any
    other index (on a table whose rows are pairs). *)
Theorem update_absent_state_raises (w : World) (state next_state : State)
    (action : nat) (reward : Z) :
  rows_ok (q_table (self w)) ->
  q_table (self w) !! state = None ->
  update_q_value state action reward next_state w
  = (Raise (if (action <? 2)%nat then KeyError else IndexError), w).
Proof.
  intros Hok Habsent.
  destruct (rows_ok_max _ next_state Hok) as (mx & Hmx).
  unfold update_q_value, getitem, bind, gets, or_raise, ret, raise.
  cbn -[Nat.ltb]. rewrite Habsent, Hmx. cbn -[Nat.ltb].
  destruct action as [|[|n]]; reflexivity.
Qed.

Lemma update_step (w : World) (state next_state : State) (action : nat)
    (reward : Z) (cur mx : Q) :
  state <> next_state ->
  q_value (q_table (self w)) state action = Some cur ->
  py_max (default [0%Q; 0%Q] (q_table (self w) !! next_state)) = Some mx ->
  exists w',
    update_q_value state action reward next_state w = (Ok tt, w') /\
    q_value (q_table (self w')) state action
    = Some (td_target (self w) cur reward mx) /\
    q_table (self w') !! next_state = q_table (self w) !! next_state /\
    alpha (self w') = alpha (self w) /\ gamma (self w') = gamma (self w).
Proof.
  intros Hne Hcur Hmx. unfold q_value in Hcur.
  destruct (q_table (self w) !! state) as [row|] eqn:Hrow; [|discriminate].
  eexists. split.
  { apply (update_q_value_ok w state next_state action reward row cur mx);
      assumption. }
  cbn. unfold q_value. rewrite lookup_insert_eq.
  split; [apply list_lookup_insert_eq; eapply lookup_lt_Some; exact Hcur|].
  split; [apply lookup_insert_ne; exact Hne|]. split; reflexivity.
Qed.

(** X13: an update moves the stored value towards
    [reward + gamma * max_future_q] and leaves a fraction [1 - alpha] of
    the distance. Repeating the same update [n] times, for a next state
    other than the state itself, leaves the fraction [(1 - alpha)^n]: with
    alpha 1 the first update already stores the target. *)
Theorem repeated_update_contracts (n : nat) (w : World) (state next_state : State)
    (action : nat) (reward : Z) (cur mx : Q) :
  state <> next_state ->
  q_value (q_table (self w)) state action = Some cur ->
  py_max (default [0%Q; 0%Q] (q_table (self w) !! next_state)) = Some mx ->
  exists w' q,
    run_calls (repeat (call_update_q_value state action reward next_state) n) w
    = (Ok tt, w') /\
    q_value (q_table (self w')) state action = Some q /\
    (q - td_goal (self w) reward mx
     == (1 - alpha (self w)) ^ Z.of_nat n
        * (cur - td_goal (self w) reward mx))%Q.
Proof.
  revert w cur. induction n as [|n IH]; intros w cur Hne Hcur Hmx.
  - exists w, cur. split; [reflexivity|]. split; [exact Hcur|].
    change (Z.of_nat 0) with 0%Z. rewrite Qpower_0_r. ring.
  - destruct (update_step w state next_state action reward cur mx Hne Hcur Hmx)
      as (w1 & Hrun & Hcur1 & Hnext & Ha & Hg).
    destruct (IH w1 _ Hne Hcur1) as (w' & q & Hrest & Hq & Hgap).
    { rewrite Hnext. exact Hmx. }
    exists w', q. cbn [repeat run_calls run_call]. unfold bind.
    rewrite Hrun. split; [exact Hrest|]. split; [exact Hq|].
    assert (Hgoal : td_goal (self w1) reward mx = td_goal (self w) reward mx)
      by (unfold td_goal; rewrite Hg; reflexivity).
    rewrite Hgoal, Ha in Hgap. rewrite Hgap, td_target_gap.
    rewrite Nat2Z.inj_succ. unfold Z.succ.
    rewrite Qpower_plus' by lia. rewrite Qpower_1_r. ring.
Qed.

Lemma with_row_keeps (s s' : State) (t : gmap State (list Q)) (row : list Q) :
  t !! s' = Some row -> with_row s t !! s' = Some row.
Proof.
  intros Hrow. unfold with_row. destruct (t !! s) eqn:Hs; [exact Hrow|].
  rewrite lookup_insert_ne; [exact Hrow | congruence].
Qed.

Lemma with_row_dom (s : State) (t : gmap State (list Q)) :
  dom (with_row s t) = dom t ∪ {[s]}.
Proof.
  unfold with_row. destruct (t !! s) eqn:Hs.
  - apply (elem_of_dom_2 t) in Hs. rewrite (union_comm_L (dom t)).
    symmetry. apply subseteq_union_1_L, singleton_subseteq_l. exact Hs.
  - rewrite dom_insert_L. apply union_comm_L.
Qed.

(** Whatever its outcome, [ai_decision] leaves the game as it was and
    the table with the row of the current state added if it was absent. *)
Lemma ai_decision_world (w : World) :
  exists e g,
    snd (ai_decision w)
    = mkWorld (set_epsilon e
                 (set_q_table (with_row (compute_state (self w))
                                 (q_table (self w))) (self w))) g.
Proof.
  rewrite ai_decision_run. cbv zeta.
  destruct (random (rng w)) as [u g1].
  destruct (Qltb u (epsilon (self w))).
  - destruct (choice [0; 1]%nat g1) as [a g2]. eexists. eexists. reflexivity.
  - destruct (with_row _ _ !! _) as [row|].
    + destruct (np_argmax row).
      * eexists. eexists. reflexivity.
      * exists (epsilon (self w)), g1. destruct w as [[] ?]. reflexivity.
    + exists (epsilon (self w)), g1. destruct w as [[] ?]. reflexivity.
Qed.

(** X14: whether it returns or raises, [ai_decision] does not touch the
    deck, the hands, [game_over], alpha or gamma, and changes no row that
    is in the table: the table gains the current state, with the row
    [0, 0], when it was absent, and nothing else. *)
Theorem ai_decision_frame (w : World) :
  let b := self w in
  let b' := self (snd (ai_decision w)) in
  deck b' = deck b /\ player_hand b' = player_hand b /\
  dealer_hand b' = dealer_hand b /\ game_over b' = game_over b /\
  alpha b' = alpha b /\ gamma b' = gamma b /\
  (forall s row, q_table b !! s = Some row -> q_table b' !! s = Some row) /\
  (q_table b !! compute_state b = None ->
   q_table b' !! compute_state b = Some [0%Q; 0%Q]) /\
  dom (q_table b') = dom (q_table b) ∪ {[compute_state b]}.
Proof.
  cbv zeta. destruct (ai_decision_world w) as (e & g & ->). cbn.
  repeat split.
  - intros s row. apply with_row_keeps.
  - intros Habsent. unfold with_row. rewrite Habsent.
    apply lookup_insert_eq.
  - apply with_row_dom.
Qed.

(** X15: while epsilon is 1 or more the selection always explores: the
    action is the one [random.choice([0, 1])] picks, Hit or Stand,
    whatever the table holds. *)
Theorem ai_decision_explores (w : World) :
  (1 <= epsilon (self w))%Q ->
  exists g,
    ai_decision w
    = (Ok (fst (choice [0; 1]%nat (snd (random (rng w))))),
       mkWorld (set_epsilon (epsilon (self w) * (995 # 1000))%Q
                  (set_q_table (with_row (compute_state (self w))
                                  (q_table (self w))) (self w))) g) /\
    (fst (choice [0; 1]%nat (snd (random (rng w)))) = Hit \/
     fst (choice [0; 1]%nat (snd (random (rng w)))) = Stand).
Proof.
  intros Heps. rewrite ai_decision_run. cbv zeta.
  pose proof (random_range (rng w)) as [_ Hu].
  destruct (random (rng w)) as [u g1]. cbn [fst snd] in *.
  assert (Hyes : Qltb u (epsilon (self w)) = true).
  { apply Qltb_lt. eapply Qlt_le_trans; eassumption. }
  rewrite Hyes.
  pose proof (choice_In [0; 1]%nat g1) as Hin.
  destruct (choice [0; 1]%nat g1) as [a g2]. cbn [fst] in *.
  exists g2. split; [reflexivity|].
  destruct Hin as [<-|[<-|[]]]; [discriminate | left | right]; reflexivity.
Qed.

(** X16: on a table whose rows are pairs, [ai_decision] never raises: it
    returns Hit or Stand, and the rows of the table it leaves are pairs
    again. *)
Theorem ai_decision_total (w : World) :
  rows_ok (q_table (self w)) ->
  exists a w',
    ai_decision w = (Ok a, w') /\ (a = Hit \/ a = Stand) /\
    rows_ok (q_table (self w')).
Proof. apply ai_decision_returns. Qed.
End Agent_facts.

(** ** The round always returns *)

Section Round_facts.

Context {G : Type} `{Random G}.

#[local] Abbreviation World := (@World G).

Lemma ai_decision_shape (w : World) :
  rows_ok (q_table (self w)) ->
  exists a e g,
    ai_decision w
    = (Ok a, mkWorld (set_epsilon e
                        (set_q_table (with_row (compute_state (self w))
                                        (q_table (self w))) (self w))) g) /\
    (a = Hit \/ a = Stand).
Proof.
  intros Hok. destruct (ai_decision_returns w Hok) as (a & w' & Hrun & Ha & _).
  destruct (ai_decision_world w) as (e & g & Hw). rewrite Hrun in Hw.
  cbn [snd] in Hw. subst w'. exists a, e, g. split; assumption.
Qed.

Lemma player_hit_cases (w : World) :
  exists c d g,
    (21 < score_hand (player_hand (self w) ++ [c]) /\
     player_hit w
     = (Ok tt, mkWorld (set_game_over true
                          (set_player_hand (player_hand (self w) ++ [c])
                             (set_deck d (self w)))) g)) \/
    (score_hand (player_hand (self w) ++ [c]) <= 21 /\
     player_hit w
     = (Ok tt, mkWorld (set_player_hand (player_hand (self w) ++ [c])
                          (set_deck d (self w))) g)).
Proof.
  destruct (player_hit_returns w) as (c & d & g & Hrun).
  exists c, d, g. rewrite Hrun. unfold after_hit. cbn.
  destruct (Z.ltb_spec 21 (score_hand (player_hand (self w) ++ [c])));
    [left | right]; split; (lia || reflexivity).
Qed.

Lemma decision_loop_over (k : nat) (act : option nat) (w : World) :
  game_over (self w) = true -> decision_loop (S k) act w = (Ok act, w).
Proof.
  intros Hover. cbn [decision_loop]. unfold bind, gets. rewrite Hover.
  reflexivity.
Qed.

Lemma decision_loop_returns (fuel : nat) (act : option nat) (w : World) :
  rows_ok (q_table (self w)) ->
  game_over (self w) = false ->
  19 + Z.max 0 (22 - hard_total (player_hand (self w))) <= Z.of_nat fuel ->
  exists a w',
    decision_loop fuel act w = (Ok (Some a), w') /\
    (a = Hit \/ a = Stand) /\
    rows_ok (q_table (self w')) /\
    game_over (self w') = true /\
    (forall s row, q_table (self w) !! s = Some row ->
                   q_table (self w') !! s = Some row) /\
    is_Some (q_table (self w') !! compute_state (self w)) /\
    alpha (self w') = alpha (self w) /\ gamma (self w') = gamma (self w).
Proof.
  revert act w. induction fuel as [|k IH]; intros act w Hok Hopen Hfuel.
  { exfalso. lia. }
  destruct (ai_decision_shape w Hok) as (a & e & g & Hai & Ha).
  destruct (with_row_ok (compute_state (self w)) _ Hok) as (Hok1 & q0 & q1 & Hrow1).
  set (w1 := mkWorld (set_epsilon e (set_q_table _ (self w))) g) in *.
  cbn [decision_loop]. unfold bind at 1, gets at 1. rewrite Hopen.
  unfold bind at 1. rewrite Hai.
  destruct Ha as [-> | ->]; cbn [Hit Stand Nat.eqb].
  - (* Hit *)
    destruct (player_hit_cases w1) as (c & d & g2 & [[Hbust Hhit] | [Hfit Hhit]]);
      unfold bind at 1; rewrite Hhit; unfold bind at 1, gets at 1;
      cbn [self player_hand set_game_over set_player_hand].
    + apply Z.ltb_lt in Hbust. rewrite Hbust.
      eexists. eexists. split; [reflexivity|].
      split; [left; reflexivity|]. cbn.
      split; [exact Hok1|]. split; [reflexivity|].
      split; [intros s row; apply with_row_keeps|].
      split; [rewrite Hrow1; eauto | split; reflexivity].
    + pose proof Hfit as Hfit'. apply Z.ltb_ge in Hfit'. rewrite Hfit'.
      match goal with |- context [decision_loop k _ ?w2'] => set (w2 := w2') end.
      destruct (IH (Some Hit) w2)
        as (a & w' & Hrun & Ha & Hok' & Hover & Hkeep & _ & Hal & Hga).
      * exact Hok1.
      * exact Hopen.
      * subst w2 w1. cbn in *. rewrite hard_total_app.
        pose proof (hard_points_range c).
        pose proof (bust_iff_hard (player_hand (self w) ++ [c])) as Hb.
        rewrite hard_total_app in Hb. lia.
      * exists a, w'. split; [exact Hrun|]. split; [exact Ha|].
        split; [exact Hok'|]. split; [exact Hover|].
        split; [intros s row Hs; apply Hkeep; cbn; apply with_row_keeps; exact Hs|].
        split; [rewrite (Hkeep _ _ Hrow1); eauto|].
        split; [rewrite Hal | rewrite Hga]; reflexivity.
  - (* Stand *)
    assert (Hk : k = (18 + (k - 18))%nat) by lia.
    destruct (dealer_turn_returns w1 (k - 18)) as (extra & d & g2 & Hturn & _).
    rewrite <- Hk in Hturn.
    unfold bind at 1. rewrite Hturn.
    destruct k as [|k]; [exfalso; lia|].
    rewrite decision_loop_over by reflexivity.
    eexists. eexists. split; [reflexivity|].
    split; [right; reflexivity|]. cbn.
    split; [exact Hok1|]. split; [reflexivity|].
    split; [intros s row; apply with_row_keeps|].
    split; [rewrite Hrow1; eauto | split; reflexivity].
Qed.

(** [play_round] is [main_round] with the reward dropped. *)
Lemma play_round_main_round (fuel : nat) (act : option nat) (w : World) :
  play_round fuel act w
  = match main_round fuel act w with
    | (Ok (action, _), w') => (Ok action, w')
    | (Raise e, w') => (Raise e, w')
    | (OutOfFuel, w') => (OutOfFuel, w')
    end.
Proof.
  unfold play_round, main_round, bind, gets, modify, ret.
  destruct (deal_initial_cards w) as [[[]|e|] wd]; try reflexivity.
  destruct (decision_loop fuel act wd) as [[o|e|] wl]; try reflexivity.
  destruct o as [a|]; cbn [or_raise]; unfold ret, raise; [|reflexivity].
  destruct (update_q_value _ _ _ _ wl) as [[[]|e|] wu]; reflexivity.
Qed.

Lemma rows_ok_update (t : gmap State (list Q)) (s : State) (row : list Q)
    (a : nat) (q : Q) :
  rows_ok t -> t !! s = Some row -> rows_ok (<[s := <[a := q]> row]> t).
Proof.
  intros Hok Hrow s' row'. rewrite lookup_insert. case_decide.
  - intros [= <-]. rewrite length_insert. exact (Hok s row Hrow).
  - apply Hok.
Qed.

Lemma winner_reward (b : Blackjack) :
  In (fst (get_winner b)) [-10; 2; -1; 0].
Proof.
  unfold get_winner, winner_of.
  repeat match goal with
         | |- context [if ?c then _ else _] => destruct c
         end; cbn; tauto.
Qed.

(** A round from an open game with a table of pairs returns: no call in
    it raises, the loops end, and the round leaves the game open again
    with a table of pairs. *)
Lemma main_round_returns (k : nat) (act : option nat) (w : World) :
  rows_ok (q_table (self w)) ->
  game_over (self w) = false ->
  exists a reward w',
    main_round (41 + k) act w = (Ok (Some a, reward), w') /\
    (a = Hit \/ a = Stand) /\
    In reward [-10; 2; -1; 0] /\
    rows_ok (q_table (self w')) /\
    game_over (self w') = false /\
    dom (q_table (self w)) ⊆ dom (q_table (self w')) /\
    alpha (self w') = alpha (self w) /\ gamma (self w') = gamma (self w).
Proof.
  intros Hok Hopen. unfold main_round. unfold bind at 1.
  destruct (deal_initial_cards_returns w) as (c1 & c2 & c3 & c4 & d & g & ->).
  set (wd := mkWorld _ g).
  unfold bind at 1, gets at 1. unfold bind at 1.
  destruct (decision_loop_returns (41 + k) act wd)
    as (a & wl & Hloop & Ha & Hokl & Hover & Hkeep & [row Hrow] & Hal & Hga).
  { exact Hok. }
  { exact Hopen. }
  { pose proof (hard_total_nonneg (player_hand (self wd))). lia. }
  rewrite Hloop.
  unfold bind at 1, gets at 1. unfold bind at 1, gets at 1.
  unfold bind at 1. cbn [or_raise]. unfold ret at 1. unfold bind at 1.
  cbn [self fst].
  assert (Hcur : exists cur, row !! a = Some cur).
  { pose proof (Hokl _ _ Hrow) as Hlen. apply lookup_lt_is_Some.
    destruct Ha as [-> | ->]; unfold Hit, Stand; lia. }
  destruct Hcur as (cur & Hcur).
  destruct (rows_ok_max _ (compute_state (self wl)) Hokl) as (mx & Hmx).
  rewrite (update_q_value_ok wl _ _ a _ row cur mx Hrow Hcur Hmx).
  unfold bind, modify, ret. cbn.
  exists a. eexists. eexists. split; [reflexivity|].
  split; [exact Ha|]. split; [apply winner_reward|].
  split; [apply rows_ok_update; assumption|]. split; [reflexivity|].
  split; [|split; assumption].
  intros s Hs. apply elem_of_dom in Hs as [r Hr].
  apply elem_of_dom. cbn. rewrite lookup_insert. case_decide; [eauto|].
  exists r. apply Hkeep. exact Hr.
Qed.

(** X17: a round of [main] started with [game_over] cleared and a table
    whose rows are pairs always returns, with any fuel from 41 on: its
    loops end, the state it updates is in the table, and nothing in it
    raises. It ends with Hit or Stand as the last action, [game_over]
    cleared again and a table of pairs that has lost no state, so the
    next round starts under the same conditions. *)
Theorem play_round_total (k : nat) (act : option nat) (w : World) :
  rows_ok (q_table (self w)) ->
  game_over (self w) = false ->
  exists a w',
    play_round (41 + k) act w = (Ok (Some a), w') /\
    (a = Hit \/ a = Stand) /\
    rows_ok (q_table (self w')) /\
    game_over (self w') = false /\
    dom (q_table (self w)) ⊆ dom (q_table (self w')) /\
    alpha (self w') = alpha (self w) /\ gamma (self w') = gamma (self w).
Proof.
  intros Hok Hopen.
  destruct (main_round_returns k act w Hok Hopen)
    as (a & reward & w' & Hrun & Ha & _ & Hrest).
  exists a, w'. rewrite play_round_main_round, Hrun. split; [reflexivity|].
  split; assumption.
Qed.
End Round_facts.

(** ** The driver *)

Lemma win_rate_range (wins losses : Z) :
  0 <= wins -> 0 <= losses -> 0 < wins + losses ->
  (0 <= inject_Z wins / inject_Z (wins + losses) * 100)%Q /\
  (inject_Z wins / inject_Z (wins + losses) * 100 <= 100)%Q.
Proof.
  intros Hw Hl Ht.
  assert (Hw' : (0 <= inject_Z wins)%Q) by (rewrite <- (Zle_Qle 0); exact Hw).
  assert (Ht' : (0 < inject_Z (wins + losses))%Q)
    by (rewrite <- (Zlt_Qlt 0); exact Ht).
  split.
  - apply Qmult_le_0_compat; [|discriminate].
    apply Qmult_le_0_compat; [exact Hw'|].
    apply Qinv_le_0_compat, Qlt_le_weak, Ht'.
  - apply Qle_trans with (1 * 100)%Q; [|discriminate].
    apply Qmult_le_compat_r; [|discriminate].
    apply Qle_shift_div_r; [exact Ht'|].
    rewrite Qmult_1_l, <- Zle_Qle. lia.
Qed.

Lemma tally_tallied (action : option nat) (reward : Z) (l : Locals) :
  tallied l -> tallied (tally action reward (begin_round l)).
Proof.
  intros (Hw & Hl & Ht & Hcount & Hlen & Hrates).
  unfold tallied, tally, begin_round. cbn.
  rewrite length_app, Nat2Z.inj_add. cbn.
  assert (Hrate : forall wins losses, 0 <= wins -> 0 <= losses ->
            (0 <= (if 0 <? wins + losses
                   then inject_Z wins / inject_Z (wins + losses) * 100
                   else 0))%Q /\
            ((if 0 <? wins + losses
              then inject_Z wins / inject_Z (wins + losses) * 100
              else 0) <= 100)%Q).
  { intros wins losses Hwins Hlosses.
    destruct (Z.ltb_spec 0 (wins + losses)).
    - apply win_rate_range; assumption.
    - split; discriminate. }
  destruct (reward =? 2); [|destruct ((reward =? -1) || (reward =? -10))];
    (repeat split; try lia;
     apply Forall_app; split; [exact Hrates|];
     constructor; [apply Hrate; lia | constructor]).
Qed.

Section Driver_facts.

Context {G : Type} `{Random G}.

#[local] Abbreviation World := (@World G).

Ltac stopped :=
  cbv zeta; cbn [fst snd];
  split; [intros e; discriminate | split; [assumption | split; assumption]].

(** X18: [main] never crashes inside a round. From an open game with a
    table of pairs and counters that agree, whatever the console holds
    and however long the loop runs, no round raises, and when the loop
    stops the win, loss and tie counters are not negative and add up to
    the round count, [win_rates] has one entry per round, and every
    entry is between 0 and 100. *)
Theorem main_loop_never_crashes (fuel k : nat) (console : list Line) (l : Locals)
    (w : World) :
  rows_ok (q_table (self w)) ->
  game_over (self w) = false ->
  tallied l ->
  let r := main_loop fuel (41 + k) console l w in
  (forall e, fst (fst r) <> Crashed e) /\
  tallied (snd (fst r)) /\
  rows_ok (q_table (self (snd r))) /\
  game_over (self (snd r)) = false.
Proof.
  revert console l w.
  induction fuel as [|fuel IH]; intros console l w Hok Hopen Htally.
  { stopped. }
  assert (Hplay : forall l0 console0, tallied l0 ->
    let r := match main_round (41 + k) (last_action (begin_round l0)) w with
             | (Ok (action, reward), w') =>
                 main_loop fuel (41 + k) console0
                   (tally action reward (begin_round l0)) w'
             | (Raise e, w') => (Crashed e, begin_round l0, w')
             | (OutOfFuel, w') => (Unfinished, begin_round l0, w')
             end in
    (forall e, fst (fst r) <> Crashed e) /\
    tallied (snd (fst r)) /\
    rows_ok (q_table (self (snd r))) /\
    game_over (self (snd r)) = false).
  { intros l0 console0 Htally0.
    destruct (main_round_returns k (last_action (begin_round l0)) w Hok Hopen)
      as (a & reward & w' & -> & _ & _ & Hok' & Hopen' & _).
    apply IH; [exact Hok' | exact Hopen' | apply tally_tallied; exact Htally0]. }
  cbn [main_loop]. cbv zeta.
  destruct (auto_play l).
  - destruct (0 <? rounds_to_play l).
    + apply (Hplay (set_auto true (rounds_to_play l - 1) l)). exact Htally.
    + apply IH; assumption.
  - destruct console as [|line rest].
    { stopped. }
    destruct (String.eqb (lowered line) "n").
    { stopped. }
    destruct (String.eqb (lowered line) "y").
    { apply (Hplay l). exact Htally. }
    destruct (String.eqb (lowered line) "plot").
    { apply IH; assumption. }
    destruct (String.eqb (lowered line) "auto"); [|apply IH; assumption].
    destruct rest as [|rounds_input rest'].
    { stopped. }
    destruct (as_int rounds_input) as [n|]; [|apply IH; assumption].
    destruct ((10 <=? n) && (n <=? 5000)); apply IH; assumption.
Qed.

Lemma auto_rounds (n : nat) (fuel k : nat) (console : list Line)
    (l : Locals) (w : World) :
  auto_play l = true ->
  rounds_to_play l = Z.of_nat n ->
  rows_ok (q_table (self w)) ->
  game_over (self w) = false ->
  exists l' w',
    main_loop (n + 1 + fuel) (41 + k) console l w
    = main_loop fuel (41 + k) console l' w' /\
    auto_play l' = false /\
    rounds_to_play l' = 0 /\
    round_count l' = round_count l + Z.of_nat n /\
    Z.of_nat (List.length (win_rates l'))
    = Z.of_nat (List.length (win_rates l)) + Z.of_nat n /\
    rows_ok (q_table (self w')) /\
    game_over (self w') = false.
Proof.
  revert l w. induction n as [|n IH]; intros l w Hauto Hleft Hok Hopen.
  - change (0 + 1 + fuel)%nat with (S fuel).
    cbn [main_loop]. cbv zeta. rewrite Hauto, Hleft.
    cbn [Z.of_nat Z.ltb Z.compare].
    eexists. eexists. split; [reflexivity|]. cbn.
    repeat split; try assumption; lia.
  - change (S n + 1 + fuel)%nat with (S (n + 1 + fuel)).
    cbn [main_loop]. cbv zeta. rewrite Hauto, Hleft.
    assert (Hpos : (0 <? Z.of_nat (S n)) = true) by (apply Z.ltb_lt; lia).
    rewrite Hpos.
    match goal with |- context [main_round _ ?a w] =>
      destruct (main_round_returns k a w Hok Hopen)
        as (a0 & reward & w1 & -> & _ & _ & Hok1 & Hopen1 & _) end.
    match goal with |- context [main_loop _ _ console ?l1 w1] =>
      destruct (IH l1 w1) as (l' & w' & Hrun & Ha & Hr & Hc & Hlen & Hok' & Hopen')
    end; try assumption; try reflexivity.
    { cbn. lia. }
    exists l', w'. split; [exact Hrun|].
    cbn in Hc, Hlen. rewrite length_app, Nat2Z.inj_add in Hlen. cbn in Hlen.
    repeat split; try assumption; lia.
Qed.

(** X19: the command [auto] with a count between 10 and 5000 plays
    exactly that many rounds without asking again, and then goes back to
    the prompt with the rest of the console: [round_count] has grown by
    the count and [win_rates] has that many more entries. *)
Theorem auto_plays_the_rounds (n : Z) (fuel k : nat) (command number : Line)
    (rest : list Line) (l : Locals) (w : World) :
  auto_play l = false ->
  lowered command = "auto"%string ->
  as_int number = Some n ->
  10 <= n <= 5000 ->
  rows_ok (q_table (self w)) ->
  game_over (self w) = false ->
  exists l' w',
    main_loop (S (Z.to_nat n + 1 + fuel)) (41 + k)
      (command :: number :: rest) l w
    = main_loop fuel (41 + k) rest l' w' /\
    auto_play l' = false /\
    round_count l' = round_count l + n /\
    Z.of_nat (List.length (win_rates l'))
    = Z.of_nat (List.length (win_rates l)) + n /\
    rows_ok (q_table (self w')) /\
    game_over (self w') = false.
Proof.
  intros Hprompt Hcmd Hnum Hrange Hok Hopen.
  cbn [main_loop]. cbv zeta. rewrite Hprompt, Hcmd, Hnum. cbn [String.eqb Ascii.eqb Bool.eqb].
  assert (Hin : (10 <=? n) && (n <=? 5000) = true).
  { apply andb_true_intro. split; apply Z.leb_le; lia. }
  rewrite Hin.
  destruct (auto_rounds (Z.to_nat n) fuel k rest (set_auto true n l) w)
    as (l' & w' & Hrun & Ha & _ & Hc & Hlen & Hok' & Hopen');
    try assumption; try reflexivity.
  { cbn. lia. }
  exists l', w'. split; [exact Hrun|]. cbn in Hc, Hlen.
  rewrite Z2Nat.id in Hc, Hlen by lia.
  repeat split; assumption.
Qed.
End Driver_facts.

(** ** The learning state and epsilon *)

Lemma has_ace_filter (hand : list Card) :
  existsb is_ace (List.filter (fun card => score_hand [card] =? 11) hand)
  = existsb is_ace hand.
Proof.
  induction hand as [|c hand IH]; [reflexivity|].
  cbn [List.filter existsb]. destruct (is_ace c) eqn:Hace.
  - apply is_ace_value in Hace. rewrite (lone_ace_scores_11 c Hace).
    cbn. apply is_ace_value in Hace. rewrite Hace. reflexivity.
  - destruct (score_hand [c] =? 11); cbn [existsb]; rewrite ?Hace; exact IH.
Qed.

Lemma two_cards_score (c1 c2 : Card) : 4 <= score_hand [c1; c2] <= 21.
Proof.
  destruct c1 as [s1 []], c2 as [s2 []];
    split; apply Z.leb_le; vm_compute; reflexivity.
Qed.

(** X20: the learning state depends on the player's cards, not on their
    order, and on the dealer's first card only: two games whose players
    hold the same cards and whose dealers show the same card are in the
    same state. *)
Theorem compute_state_order (b1 b2 : Blackjack) :
  Permutation (player_hand b1) (player_hand b2) ->
  head (dealer_hand b1) = head (dealer_hand b2) ->
  compute_state b1 = compute_state b2.
Proof.
  intros Hp Hd. unfold compute_state. rewrite !has_ace_filter.
  rewrite <- !aces_in_existsb, (aces_in_perm _ _ Hp).
  rewrite !score_hand_unfold, (points_total_perm _ _ Hp), (aces_in_perm _ _ Hp).
  destruct (dealer_hand b1) as [|c1 ?], (dealer_hand b2) as [|c2 ?];
    cbn in Hd; try discriminate; [reflexivity|].
  injection Hd as ->. reflexivity.
Qed.

Section State_facts.

Context {G : Type} `{Random G}.

#[local] Abbreviation World := (@World G).

(** X21: no round starts bust. After [deal_initial_cards] both hands
    hold two cards and score between 4 and 21, so the total in the first
    learning state of a round is in that range, and the dealer shows a
    card. *)
Theorem initial_deal_in_range (w : World) :
  exists w' c,
    deal_initial_cards w = (Ok tt, w') /\
    List.length (player_hand (self w')) = 2%nat /\
    List.length (dealer_hand (self w')) = 2%nat /\
    4 <= score_hand (player_hand (self w')) <= 21 /\
    4 <= score_hand (dealer_hand (self w')) <= 21 /\
    fst (compute_state (self w'))
    = (score_hand (player_hand (self w')), Some (value c)) /\
    head (dealer_hand (self w')) = Some c.
Proof.
  destruct (deal_initial_cards_returns w) as (c1 & c2 & c3 & c4 & d & g & ->).
  eexists. exists c3. split; [reflexivity|]. cbn [self player_hand dealer_hand
    set_dealer_hand set_player_hand set_deck].
  split; [reflexivity|]. split; [reflexivity|].
  split; [apply two_cards_score|]. split; [apply two_cards_score|].
  split; reflexivity.
Qed.

(** X22: epsilon has no floor but never reaches 0: a selection that
    returns leaves a positive epsilon positive and strictly smaller. *)
Theorem epsilon_shrinks (w w' : World) (a : nat) :
  ai_decision w = (Ok a, w') ->
  (0 < epsilon (self w))%Q ->
  (0 < epsilon (self w'))%Q /\ (epsilon (self w') < epsilon (self w))%Q.
Proof.
  intros Hrun Hpos. rewrite (ai_decision_epsilon w w' a Hrun). split.
  - apply Qmult_lt_0_compat; [exact Hpos | reflexivity].
  - rewrite <- (Qmult_1_r (epsilon (self w))) at 2.
    apply Qmult_lt_l; [exact Hpos | reflexivity].
Qed.
End State_facts.

(** ** The further properties on the cycling generator *)

Lemma rows_ok_empty : rows_ok (∅ : gmap State (list Q)).
Proof. intros s row Hs. rewrite lookup_empty in Hs. discriminate. Qed.

Lemma start_locals_tallied : tallied start_locals.
Proof. repeat split; cbn; try lia. constructor. Qed.

(** X3 on an Ace, a 5 and a 6 in two orders. *)
Lemma score_hand_order_witness :
  score_hand [mkCard Spades Ace; mkCard Hearts R5; mkCard Clubs R6]
  = score_hand [mkCard Clubs R6; mkCard Spades Ace; mkCard Hearts R5].
Proof.
  apply score_hand_order. symmetry.
  apply (Permutation_cons_append [mkCard Spades Ace; mkCard Hearts R5]).
Defined.

(** X4 on the new game: the first card dealt is the 2 of Hearts. *)
Lemma deal_takes_last_witness : fst (deal new_game) = Ok (mkCard Hearts R2).
Proof.
  rewrite (deal_takes_last new_game (rev (tl fresh_cards)) (mkCard Hearts R2));
    reflexivity.
Defined.

(** X5 on a game whose deck has run out. *)
Lemma deal_refills_empty_deck_witness :
  exists c rest g,
    deal empty_deck_game
    = (Ok c, mkWorld (set_deck (mkDeck rest) (self empty_deck_game)) g) /\
    List.length rest = 51%nat.
Proof.
  destruct (deal_refills_empty_deck empty_deck_game eq_refl)
    as (c & rest & g & Hrun & _ & Hlen & _).
  exists c, rest, g. split; assumption.
Defined.

(** X6 on the new game: the 2 of Hearts is dealt and is no longer in the
    deck. *)
Lemma deal_keeps_deck_distinct_witness :
  ~ In (mkCard Hearts R2) (cards (deck (self (snd (deal new_game))))).
Proof.
  apply (deal_keeps_deck_distinct new_game (snd (deal new_game))
           (mkCard Hearts R2)).
  - apply (bool_decide_unpack _). vm_compute. exact I.
  - vm_compute. reflexivity.
Defined.

(** X7 on the new game: the player gets the 2 and 3 of Hearts. *)
Lemma deal_initial_cards_top_four_witness :
  player_hand (self (snd (deal_initial_cards new_game)))
  = [mkCard Hearts R2; mkCard Hearts R3].
Proof.
  rewrite (deal_initial_cards_top_four new_game (rev (skipn 4 fresh_cards))
             (mkCard Hearts R2) (mkCard Hearts R3)
             (mkCard Hearts R4) (mkCard Hearts R5));
    reflexivity.
Defined.

(** X10 on a player who hits on 20 and is dealt a 5. *)
Lemma bust_hit_pays_minus_10_witness :
  get_winner (self (snd (player_hit bust_game)))
  = (-10, "Player busts! Dealer wins."%string).
Proof.
  destruct (bust_hit_pays_minus_10 bust_game (snd (player_hit bust_game)))
    as (Hbust & _); [reflexivity | vm_compute; reflexivity |].
  apply Hbust. vm_compute. reflexivity.
Defined.

(** X11 on a player who stands on 5 right after the deal. *)
Lemma stand_outcome_witness :
  exists w', dealer_turn 18 dealt_game = (Ok tt, w') /\
             17 <= score_hand (dealer_hand (self w')).
Proof.
  destruct (stand_outcome dealt_game 0) as (w' & Hrun & _ & Hd & _).
  - apply Z.leb_le. vm_compute. reflexivity.
  - exists w'. split; [exact Hrun | exact Hd].
Defined.

(** X12 on the new game, whose table is empty. *)
Lemma update_absent_state_raises_witness :
  update_q_value (5, Some R4, false) Stand 2 (11, Some R4, false) new_game
  = (Raise KeyError, new_game).
Proof.
  apply (update_absent_state_raises new_game (5, Some R4, false)
           (11, Some R4, false) Stand 2).
  - apply rows_ok_empty.
  - reflexivity.
Defined.

(** X13 on a table with the row [5, 3]: two updates of the Stand entry
    towards the reward 2. *)
Lemma repeated_update_contracts_witness :
  exists w' q,
    run_calls
      (repeat (call_update_q_value (5, Some R4, false) Stand 2
                 (11, Some R4, false)) 2) (greedy_game [5; 3]%Q)
    = (Ok tt, w') /\
    q_value (q_table (self w')) (5, Some R4, false) Stand = Some q.
Proof.
  destruct (repeated_update_contracts 2 (greedy_game [5; 3]%Q)
              (5, Some R4, false) (11, Some R4, false) Stand 2 3 0)
    as (w' & q & Hrun & Hq & _).
  - discriminate.
  - vm_compute. reflexivity.
  - vm_compute. reflexivity.
  - exists w', q. split; assumption.
Defined.

(** X15 on the game just dealt, epsilon 1: the pick is Hit. *)
Lemma ai_decision_explores_witness : fst (ai_decision dealt_game) = Ok Hit.
Proof.
  destruct (ai_decision_explores dealt_game) as (g & Hrun & _).
  - vm_compute. discriminate.
  - rewrite Hrun. reflexivity.
Defined.

(** X16 on the new game, whose table is empty. *)
Lemma ai_decision_total_witness :
  exists a w', ai_decision new_game = (Ok a, w') /\ (a = Hit \/ a = Stand).
Proof.
  destruct (ai_decision_total new_game rows_ok_empty) as (a & w' & Hrun & Ha & _).
  exists a, w'. split; assumption.
Defined.

(** X17 on the new game. *)
Lemma play_round_total_witness :
  exists a w', play_round 41 None new_game = (Ok (Some a), w') /\
               game_over (self w') = false.
Proof.
  destruct (play_round_total 0 None new_game rows_ok_empty eq_refl)
    as (a & w' & Hrun & _ & _ & Hopen & _).
  exists a, w'. split; assumption.
Defined.

(** X18 on the new game and the console that asks for ten rounds. *)
Lemma main_loop_never_crashes_witness :
  tallied (snd (fst (main_loop 20 41 auto_console start_locals new_game))).
Proof.
  apply (main_loop_never_crashes 20 0 auto_console start_locals new_game
           rows_ok_empty eq_refl start_locals_tallied).
Defined.

(** X19 on the same console: ten rounds, then the prompt reads ['n']. *)
Lemma auto_plays_the_rounds_witness :
  exists l' w',
    main_loop 13 41 auto_console start_locals new_game
    = main_loop 1 41 [typed "n"] l' w' /\
    round_count l' = 10.
Proof.
  destruct (auto_plays_the_rounds 10 1 0 (typed "auto") (typed_number "10" 10)
              [typed "n"] start_locals new_game)
    as (l' & w' & Hrun & _ & Hcount & _);
    try reflexivity; try lia; try apply rows_ok_empty.
  exists l', w'. split; [exact Hrun | exact Hcount].
Defined.

(** X20 on the hand 2, 3, 6 and the same cards as 6, 2, 3. *)
Lemma compute_state_order_witness :
  compute_state (self after_first_hit)
  = compute_state
      (set_player_hand [mkCard Hearts R6; mkCard Hearts R2; mkCard Hearts R3]
         (self after_first_hit)).
Proof.
  apply compute_state_order; [|reflexivity].
  change (player_hand (self after_first_hit))
    with ([mkCard Hearts R2; mkCard Hearts R3] ++ [mkCard Hearts R6]).
  symmetry. apply Permutation_cons_append.
Defined.

(** X22 on the first selection of the round played from the new game. *)
Lemma epsilon_shrinks_witness :
  (0 < epsilon (self first_choice))%Q /\
  (epsilon (self first_choice) < epsilon (self dealt_game))%Q.
Proof.
  apply (epsilon_shrinks dealt_game first_choice Hit).
  - vm_compute. reflexivity.
  - reflexivity.
Defined.
